(** * disk_led_monitor: a shallow embedding of the userspace disk LED monitor

    The program polls [/proc/diskstats], fingerprints the line of one disk
    with a DJB2 hash and pulses an LED through sysfs whenever the
    fingerprint changes.  This file embeds
    [userspace-binary/disk_led_monitor.c] function by function and proves
    the properties of its change-detection and signalling loop.

    Conventions of the embedding:
    - [unsigned long] is a [Z] reduced modulo [2 ^ ulong_bits]; [int] is a
      [Z] reduced to the two's-complement range of 32 bits;
    - a C string is a [list byte]; as in C, its content ends just before
      the first NUL byte (or at the end of the list);
    - the outside world (the content of [/proc/diskstats], the fate of each
      LED write, the arrival of signals) is an oracle [env] indexed by a
      logical clock; the mutable part (the clock, the [running] flag, the
      LED, the output written so far) is a [world] threaded through a state
      monad;
    - a signal is delivered between two actions of the program: its
      handler runs, then the program goes on where it was.  Durations are
      not modelled: a sleep is an event, however long it lasts;
    - the path of the brightness file (built from [target_led]) is not
      modelled: the environment answers for the file it names. *)

From Stdlib Require Import ZArith List Bool Lia.
From Stdlib Require Import Strings.Byte.
From Stdlib Require Strings.String.
Import ListNotations.

Local Open Scope Z_scope.

(* ===================================================================== *)
(** * Part 1: definitions *)
(* ===================================================================== *)

(** ** Constants of the source *)

Definition MAX_LINE_LENGTH : nat := 1024.
Definition MONITOR_INTERVAL : Z := 100000.
Definition LED_BLINK_DURATION : Z := 50000.

(** ** Machine integers *)

(** The two Linux data models: [unsigned long] has 32 bits under ILP32
    and 64 bits under LP64.  Plain [char] is signed on some targets (x86)
    and unsigned on others (ARM). *)
Inductive data_model : Type := ILP32 | LP64.

Record target : Type := {
  model : data_model;
  char_signed : bool
}.

Definition ulong_bits (T : target) : Z :=
  match model T with
  | ILP32 => 32
  | LP64 => 64
  end.

Definition ulong_wrap (T : target) (z : Z) : Z := z mod 2 ^ ulong_bits T.

Definition ulong_shl (T : target) (a n : Z) : Z := ulong_wrap T (Z.shiftl a n).

Definition ulong_add (T : target) (a b : Z) : Z := ulong_wrap T (a + b).

(** Conversion of an [int] to [unsigned long] (sign extension followed by
    reduction modulo the word size). *)
Definition ulong_of_int (T : target) (c : Z) : Z := ulong_wrap T c.

Definition INT_MAX : Z := 2147483647.
Definition INT_MIN : Z := -2147483648.

(** [int] arithmetic, reduced to the two's-complement range. *)
Definition int_wrap (z : Z) : Z := (z + 2 ^ 31) mod 2 ^ 32 - 2 ^ 31.

(** ** Characters and C strings *)

Definition byte_unsigned (b : byte) : Z := Z.of_N (Byte.to_N b).

(** The value of a [char] once promoted to [int]. *)
Definition char_value (T : target) (b : byte) : Z :=
  if char_signed T && (128 <=? byte_unsigned b)
  then byte_unsigned b - 256
  else byte_unsigned b.

Definition NUL : byte := x00.
Definition newline : byte := x0a.

(** The content of a C string held in a buffer: the bytes before the first
    NUL. *)
Fixpoint cstr (s : list byte) : list byte :=
  match s with
  | [] => []
  | b :: s' => if Byte.eqb b NUL then [] else b :: cstr s'
  end.

(** ** [hash_string] (lines 31-40) *)

(** The [while ((c = *str++))] loop: [c] is the promoted character, the
    loop ends at the terminating NUL. *)
Fixpoint hash_string_loop (T : target) (hash : Z) (str : list byte) : Z :=
  match str with
  | [] => hash
  | b :: str' =>
      let c := char_value T b in
      if c =? 0 then hash
      else
        hash_string_loop T
          (ulong_add T (ulong_add T (ulong_shl T hash 5) hash)
                     (ulong_of_int T c))
          str'
  end.

Definition hash_string (T : target) (str : list byte) : Z :=
  hash_string_loop T 5381 str.

(** The DJB2 scheme in the words of the specification: seed 5381, and for
    each byte the accumulator becomes [accumulator * 33 + byte], in
    [unsigned long] arithmetic.  [value] gives the number a byte stands
    for. *)
Definition djb2_reference (T : target) (value : byte -> Z) (line : list byte) : Z :=
  fold_left (fun accumulator b => ulong_wrap T (accumulator * 33 + value b))
            line 5381.

(** ** The change decision (line 216) *)

(** [current_hash != last_hash && current_hash != 0]. *)
Definition has_changed (previous current : Z) : bool :=
  negb (current =? previous) && negb (current =? 0).

(** ** The C library's line reader and substring search *)

(** [fgets(buffer, size, file)] reads at most [size - 1] bytes and stops
    after a newline or at end of file.  [fgets_loop room stream] gives the
    bytes stored and the rest of the stream. *)
Fixpoint fgets_loop (room : nat) (stream : list byte) : list byte * list byte :=
  match room with
  | O => ([], stream)
  | S room' =>
      match stream with
      | [] => ([], [])
      | b :: rest =>
          if Byte.eqb b newline then ([b], rest)
          else let (line, rest') := fgets_loop room' rest in (b :: line, rest')
      end
  end.

(** [None] is the NULL returned at end of file. *)
Definition fgets (size : nat) (stream : list byte) : option (list byte * list byte) :=
  match stream with
  | [] => None
  | _ :: _ => Some (fgets_loop (size - 1) stream)
  end.

Fixpoint is_prefix (needle haystack : list byte) : bool :=
  match needle with
  | [] => true
  | n :: needle' =>
      match haystack with
      | [] => false
      | h :: haystack' => Byte.eqb n h && is_prefix needle' haystack'
      end
  end.

Fixpoint strstr_from (haystack needle : list byte) : option nat :=
  if is_prefix needle haystack then Some O
  else
    match haystack with
    | [] => None
    | _ :: haystack' => option_map S (strstr_from haystack' needle)
    end.

(** [strstr(haystack, needle)]: the offset of the first occurrence of the
    string [needle] in the string [haystack], [None] for NULL. *)
Definition strstr (haystack needle : list byte) : option nat :=
  strstr_from (cstr haystack) (cstr needle).

(** ** The outside world *)

(** The three possible fates of one call of [set_led_brightness]: the
    [fopen] of the brightness file fails; the file opens but the value
    does not reach the LED (the results of [fprintf] and [fclose] are not
    inspected by the program); the value is stored. *)
Inductive led_outcome : Type := Open_fails | Write_fails | Write_ok.

(** What the environment answers at each tick of the logical clock. *)
Record env : Type := {
  (** content of [/proc/diskstats] if opened now; [None]: [fopen] fails *)
  diskstats_at : nat -> option (list byte);
  (** fate of a write to the LED's brightness file attempted now *)
  led_at : nat -> led_outcome;
  (** the signals (SIGINT, SIGTERM) that arrive before the action taken now *)
  signals_at : nat -> list Z
}.

(** The globals set once from the command line (lines 18-20). *)
Record config : Type := {
  target_disk : list byte;
  target_led : list byte;
  debug_mode : bool
}.

(** The observable actions of the program, in the order they happen. *)
Inductive event : Type :=
| Printf_signal (sig : Z)                           (* line 25 *)
| Perror_diskstats                                  (* line 47 *)
| Warning_not_found                                 (* line 68 *)
| Perror_led                                        (* line 83 *)
| Led_write (brightness : Z) (outcome : led_outcome) (* lines 80-89: a call
     of set_led_brightness reaches the brightness file, with this fate *)
| Usleep (usec : Z)                                 (* lines 96, 228 *)
| Printf_activity (count : Z)                       (* line 219 *)
| Printf_shutdown (count : Z).                      (* line 232 *)

Record world : Type := {
  now : nat;            (** logical clock: number of actions taken so far *)
  running : Z;          (** the global [volatile int running] *)
  led : Z;              (** the brightness the LED currently shows *)
  out : list event      (** everything done so far, oldest first *)
}.

(** ** A state monad over [world] *)

Definition M (A : Type) : Type := world -> A * world.

Definition ret {A : Type} (a : A) : M A := fun w => (a, w).

Definition bind {A B : Type} (m : M A) (k : A -> M B) : M B :=
  fun w => let (a, w') := m w in k a w'.

Declare Scope monad_scope.
Delimit Scope monad_scope with monad.
Notation "x <- m ;; k" := (bind m (fun x => k))
  (at level 61, m at next level, right associativity) : monad_scope.
Notation "m ;; k" := (bind m (fun _ => k))
  (at level 61, right associativity) : monad_scope.
Local Open Scope monad_scope.

Definition emit (e : event) : M unit :=
  fun w => (tt, {| now := now w; running := running w; led := led w;
                   out := out w ++ [e] |}).

Definition set_running (v : Z) : M unit :=
  fun w => (tt, {| now := now w; running := v; led := led w; out := out w |}).

Definition read_running : M Z := fun w => (running w, w).

Definition store_led (v : Z) : M unit :=
  fun w => (tt, {| now := now w; running := running w; led := v; out := out w |}).

Definition advance : M unit :=
  fun w => (tt, {| now := S (now w); running := running w; led := led w;
                   out := out w |}).

Definition when (c : bool) (m : M unit) : M unit := if c then m else ret tt.

Section Program.

Variable cfg : config.
Variable T : target.
Variable E : env.

(** ** [signal_handler] (lines 23-28) *)

Definition signal_handler (sig : Z) : M unit :=
  when (debug_mode cfg) (emit (Printf_signal sig)) ;;
  set_running 0.

(** Asynchronous delivery: the handler runs once for each signal that has
    arrived, then the interrupted program goes on. *)
Fixpoint handle_signals (sigs : list Z) : M unit :=
  match sigs with
  | [] => ret tt
  | sig :: sigs' => signal_handler sig ;; handle_signals sigs'
  end.

Definition deliver_signals : M unit :=
  fun w => handle_signals (signals_at E (now w)) w.

(** One action of the program: the signals pending at this instant are
    handled first, the action runs, the clock moves on. *)
Definition io_step {A : Type} (action : M A) : M A :=
  deliver_signals ;;
  r <- action ;;
  advance ;;
  ret r.

(** ** [get_diskstats_hash] (lines 43-72) *)

Definition fopen_diskstats : M (option (list byte)) :=
  fun w => (diskstats_at E (now w), w).

(** The [while (fgets ...)] loop (lines 56-63); the result is the pair
    [(found, hash)].  Each round consumes at least one byte of the stream,
    so [fuel] larger than the length of the stream is never used up. *)
Fixpoint diskstats_scan (fuel : nat) (stream : list byte) : bool * Z :=
  match fuel with
  | O => (false, 0)
  | S fuel' =>
      match fgets MAX_LINE_LENGTH stream with
      | None => (false, 0)
      | Some (buffer, stream') =>
          match strstr buffer (target_disk cfg) with
          | Some _ => (true, hash_string T buffer)
          | None => diskstats_scan fuel' stream'
          end
      end
  end.

Definition get_diskstats_hash : M Z :=
  io_step (
    file <- fopen_diskstats ;;
    match file with
    | None =>
        when (debug_mode cfg) (emit Perror_diskstats) ;;
        ret 0
    | Some stream =>
        let (found, hash) := diskstats_scan (S (length stream)) stream in
        when (negb found && debug_mode cfg) (emit Warning_not_found) ;;
        ret hash
    end).

(** ** [set_led_brightness] (lines 75-91) *)

Definition fopen_led : M led_outcome := fun w => (led_at E (now w), w).

Definition set_led_brightness (brightness : Z) : M Z :=
  io_step (
    outcome <- fopen_led ;;
    emit (Led_write brightness outcome) ;;
    match outcome with
    | Open_fails =>
        when (debug_mode cfg) (emit Perror_led) ;;
        ret (-1)
    | Write_fails => ret 0
    | Write_ok => store_led brightness ;; ret 0
    end).

Definition usleep (usec : Z) : M unit := io_step (emit (Usleep usec)).

(** ** [blink_led] (lines 94-98) *)

Definition blink_led : M unit :=
  set_led_brightness 1 ;;
  usleep LED_BLINK_DURATION ;;
  set_led_brightness 0 ;;
  ret tt.

(** ** The monitor loop of [main] (lines 209-234) *)

Record locals : Type := {
  last_hash : Z;
  activity_count : Z
}.

(** The body of the [while] loop (lines 214-228). *)
Definition main_tick (l : locals) : M locals :=
  current_hash <- get_diskstats_hash ;;
  l' <- (if has_changed (last_hash l) current_hash then
           let count := int_wrap (activity_count l + 1) in
           when (debug_mode cfg) (emit (Printf_activity count)) ;;
           blink_led ;;
           ret {| last_hash := current_hash; activity_count := count |}
         else ret l) ;;
  usleep MONITOR_INTERVAL ;;
  ret l'.

(** [while (running) { ... }] (lines 213-229), at most [fuel] rounds;
    [None] when the loop is still running after [fuel] rounds. *)
Fixpoint main_loop (fuel : nat) (l : locals) : M (option locals) :=
  match fuel with
  | O => ret None
  | S fuel' =>
      r <- io_step read_running ;;
      if r =? 0 then ret (Some l)
      else l' <- main_tick l ;; main_loop fuel' l'
  end.

(** Lines 213-234: the loop, the summary and [return 0]. *)
Definition main_from_loop (fuel : nat) (l : locals) : M (option Z) :=
  r <- main_loop fuel l ;;
  match r with
  | None => ret None
  | Some l' =>
      when (debug_mode cfg) (emit (Printf_shutdown (activity_count l'))) ;;
      ret (Some 0)
  end.

(** Lines 209-234. *)
Definition main_monitor (fuel : nat) : M (option Z) :=
  last <- get_diskstats_hash ;;
  main_from_loop fuel {| last_hash := last; activity_count := 0 |}.

End Program.

Arguments last_hash : clear implicits.
Arguments activity_count : clear implicits.

(** ** Derived notions used in the statements *)

(** What the program did to the outside: the LED writes and the sleeps,
    without the diagnostics. *)
Fixpoint device_trace (evs : list event) : list event :=
  match evs with
  | [] => []
  | Led_write b o :: evs' => Led_write b o :: device_trace evs'
  | Usleep d :: evs' => Usleep d :: device_trace evs'
  | _ :: evs' => device_trace evs'
  end.

(** The test of line 58 as a boolean. *)
Definition line_matches (key buffer : list byte) : bool :=
  match strstr buffer key with
  | Some _ => true
  | None => false
  end.

(** The fingerprint that [get_diskstats_hash] returns when it is called at
    instant [t]. *)
Definition reading (cfg : config) (T : target) (E : env) (t : nat) : Z :=
  match diskstats_at E t with
  | None => 0
  | Some stream => snd (diskstats_scan cfg T (S (length stream)) stream)
  end.

(** Some signal arrives during the [k] instants that start at [t]. *)
Fixpoint any_signal (E : env) (t : nat) (k : nat) : bool :=
  match k with
  | O => false
  | S k' =>
      match signals_at E t with
      | [] => any_signal E (S t) k'
      | _ :: _ => true
      end
  end.

(** The world once the handler has run for each of the signals [sigs]. *)
Definition after_signals (cfg : config) (sigs : list Z) (w : world) : world :=
  {| now := now w;
     running := match sigs with [] => running w | _ :: _ => 0 end;
     led := led w;
     out := out w ++ (if debug_mode cfg then map Printf_signal sigs else []) |}.

(** The brightness the LED shows after the writes of [devs], from [v]. *)
Definition led_after (devs : list event) (v : Z) : Z :=
  fold_left (fun v e => match e with
                        | Led_write b Write_ok => b
                        | _ => v
                        end) devs v.

(** Summary of a piece of execution from [w] to [w']: it takes [k]
    instants, [running] drops to zero if a signal arrives meanwhile and is
    otherwise left alone, the device sees [devs], and the LED shows what
    was last stored. *)
Definition run_effect (E : env) (k : nat) (w w' : world) (devs : list event) : Prop :=
  now w' = (now w + k)%nat
  /\ running w' = (if any_signal E (now w) k then 0 else running w)
  /\ device_trace (out w') = device_trace (out w) ++ devs
  /\ led w' = led_after devs (led w).

(** What the device sees of one pulse begun at instant [t]: the activating
    write, the hold, the deactivating write. *)
Definition pulse (E : env) (t : nat) : list event :=
  [Led_write 1 (led_at E t); Usleep LED_BLINK_DURATION;
   Led_write 0 (led_at E (t + 2))].

(** The locals at the end of a tick that read [current]. *)
Definition next_locals (l : locals) (current : Z) : locals :=
  if has_changed (last_hash l) current
  then {| last_hash := current;
          activity_count := int_wrap (activity_count l + 1) |}
  else l.

(** The state of the process when line 209 is reached. *)
Definition initial_world : world :=
  {| now := O; running := 1; led := 0; out := [] |}.

(** ** Text files, for the statements about the record extractor *)

(** [key] occurs in [line] as a substring. *)
Definition contains (key line : list byte) : Prop :=
  exists before after, line = before ++ key ++ after.

(** A sequence of source lines: every line ends with its newline and has
    no other; the last line alone may lack the newline, and is then not
    empty.  The content of the file is [concat lines]. *)
Inductive text_lines : list (list byte) -> Prop :=
| text_lines_nil : text_lines []
| text_lines_last (l : list byte) :
    l <> [] -> ~ In newline l -> text_lines [l]
| text_lines_cons (body : list byte) (ls : list (list byte)) :
    ~ In newline body -> text_lines ls ->
    text_lines ((body ++ [newline]) :: ls).

(** [l] is the first line, from the top, that contains [key]. *)
Definition first_containing (key : list byte) (lines : list (list byte))
    (l : list byte) : Prop :=
  exists above below,
    lines = above ++ l :: below
    /\ Forall (fun l' => ~ contains key l') above
    /\ contains key l.

(** ** Sample inputs *)

Import String.StringSyntax.
Delimit Scope string_scope with string.

Definition bytes (s : String.string) : list byte := String.list_byte_of_string s.
Arguments bytes s%_string.

(** Two targets: a 64-bit x86 Linux (signed [char]) and a 32-bit ARM Linux
    (unsigned [char]). *)
Definition x86_64 : target := {| model := LP64; char_signed := true |}.
Definition arm32 : target := {| model := ILP32; char_signed := false |}.

(** Lines of [/proc/diskstats], without their newline. *)
Definition sdb_body : list byte :=
  bytes "   8      16 sdb 310 0 9214 137 0 0 0 0 0 164 137".
Definition sda_body_1 : list byte :=
  bytes "   8       0 sda 5119 1441 341146 2204 3431 4970 107944 4272 0 4496 6476".
Definition sda_body_2 : list byte :=
  bytes "   8       0 sda 5120 1441 341154 2204 3431 4970 107944 4272 0 4496 6476".

Definition stats_1 : list (list byte) :=
  [sdb_body ++ [newline]; sda_body_1 ++ [newline]].
Definition stats_2 : list (list byte) :=
  [sdb_body ++ [newline]; sda_body_2 ++ [newline]].

Definition sample_cfg : config :=
  {| target_disk := bytes "sda"; target_led := bytes "led0";
     debug_mode := true |}.

Definition quiet_cfg : config :=
  {| target_disk := bytes "sda"; target_led := bytes "led0";
     debug_mode := false |}.

(** The baseline after a reading of [stats_1]. *)
Definition baseline_1 : locals :=
  {| last_hash := hash_string x86_64 (sda_body_1 ++ [newline]);
     activity_count := 0 |}.

(** The statistics have moved on to [stats_2]; the LED works. *)
Definition env_changed : env :=
  {| diskstats_at := fun _ => Some (concat stats_2);
     led_at := fun _ => Write_ok;
     signals_at := fun _ => [] |}.

(** The statistics read [stats_1] at every instant; the LED works. *)
Definition env_steady : env :=
  {| diskstats_at := fun _ => Some (concat stats_1);
     led_at := fun _ => Write_ok;
     signals_at := fun _ => [] |}.

(** The statistics cannot be opened at instant 0 and read [stats_1]
    afterwards. *)
Definition env_outage : env :=
  {| diskstats_at := fun t => if Nat.eqb t 0 then None
                              else Some (concat stats_1);
     led_at := fun _ => Write_ok;
     signals_at := fun _ => [] |}.

(** As [env_changed], with a LED whose brightness file cannot be opened. *)
Definition env_led_broken : env :=
  {| diskstats_at := fun _ => Some (concat stats_2);
     led_at := fun _ => Open_fails;
     signals_at := fun _ => [] |}.

(** As [env_changed], with SIGTERM arriving at instant 3. *)
Definition env_interrupted : env :=
  {| diskstats_at := fun _ => Some (concat stats_2);
     led_at := fun _ => Write_ok;
     signals_at := fun t => if Nat.eqb t 3 then [15] else [] |}.

(** Sample executions: a tick that sees the change, with a working and
    with a broken LED; a tick during the outage and the tick that follows
    it; a run of the loop interrupted during its first pulse. *)
Definition tick_changed : locals * world :=
  main_tick sample_cfg x86_64 env_changed baseline_1 initial_world.

Definition tick_led_broken : locals * world :=
  main_tick sample_cfg x86_64 env_led_broken baseline_1 initial_world.

Definition tick_outage : locals * world :=
  main_tick sample_cfg x86_64 env_outage baseline_1 initial_world.

Definition tick_recovery : locals * world :=
  main_tick sample_cfg x86_64 env_outage (fst tick_outage)
    (snd (io_step sample_cfg env_outage read_running (snd tick_outage))).

Definition run_interrupted : option Z * world :=
  main_from_loop sample_cfg x86_64 env_interrupted 2 baseline_1 initial_world.

(** A single line of 1026 bytes: the key begins at offset 1022. *)
Definition long_line : list byte :=
  (repeat "x"%byte 1022 ++ bytes "sda") ++ [newline].

(** ** Further notions: the records of a file, the shape of a run *)

(** The buffers that successive calls of [fgets] return on [stream], at
    most [fuel] of them. *)
Fixpoint fgets_records (fuel : nat) (stream : list byte) : list (list byte) :=
  match fuel with
  | O => []
  | S fuel' =>
      match fgets MAX_LINE_LENGTH stream with
      | None => []
      | Some (buffer, stream') => buffer :: fgets_records fuel' stream'
      end
  end.

(** Number of activating writes (brightness 1) among the events. *)
Fixpoint pulses_in (evs : list event) : Z :=
  match evs with
  | [] => 0
  | Led_write b _ :: evs' => (if b =? 1 then 1 else 0) + pulses_in evs'
  | _ :: evs' => pulses_in evs'
  end.

(** What the device sees of one tick: the poll sleep, after a whole pulse
    or after nothing. *)
Inductive tick_trace (E : env) : list event -> Prop :=
| tick_idle : tick_trace E [Usleep MONITOR_INTERVAL]
| tick_pulse (t : nat) : tick_trace E (pulse E t ++ [Usleep MONITOR_INTERVAL]).

(** What the device sees of a sequence of ticks. *)
Inductive ticks_trace (E : env) : list event -> Prop :=
| ticks_none : ticks_trace E []
| ticks_more (tick rest : list event) :
    tick_trace E tick -> ticks_trace E rest -> ticks_trace E (tick ++ rest).

(** A computation that outputs nothing but device events. *)
Definition quiet {A : Type} (m : M A) : Prop :=
  forall w, exists devs,
    out (snd (m w)) = out w ++ devs /\ device_trace devs = devs.

(** ** The startup of [main] (lines 100-207) *)

(** The text that [snprintf] formats for an LED name, and the path left
    in a buffer of [size] bytes: the text cut to [size - 1] bytes
    (lines 76-78 and 102-104, where [size] is 256). *)
Definition led_path_prefix : list byte := bytes "/sys/class/leds/".
Definition led_path_suffix : list byte := bytes "/brightness".

Definition led_brightness_path (size : nat) (name : list byte) : list byte :=
  firstn (size - 1) (led_path_prefix ++ cstr name ++ led_path_suffix).

(** What the environment answers to the checks made before the loop. *)
Record startup_env : Type := {
  (** [fopen(path, "r")] succeeds now *)
  readable_at : nat -> list byte -> bool;
  (** [access(DISKSTATS_PATH, R_OK)] returns 0 now *)
  access_at : nat -> bool
}.

(** [check_led_exists] (lines 101-112). *)
Definition check_led_exists (cfg : config) (E : env) (SE : startup_env) : M Z :=
  io_step cfg E
    (fun w =>
       (if readable_at SE (now w) (led_brightness_path 256 (target_led cfg))
        then 1 else 0, w)).

(** The loop of [check_disk_exists] (lines 124-129); the result is
    [found]. *)
Fixpoint check_disk_scan (cfg : config) (fuel : nat) (stream : list byte) : Z :=
  match fuel with
  | O => 0
  | S fuel' =>
      match fgets MAX_LINE_LENGTH stream with
      | None => 0
      | Some (buffer, stream') =>
          match strstr buffer (target_disk cfg) with
          | Some _ => 1
          | None => check_disk_scan cfg fuel' stream'
          end
      end
  end.

(** [check_disk_exists] (lines 115-133). *)
Definition check_disk_exists (cfg : config) (E : env) : M Z :=
  io_step cfg E (
    file <- fopen_diskstats E ;;
    match file with
    | None => ret 0
    | Some stream => ret (check_disk_scan cfg (S (length stream)) stream)
    end).

(** [access(DISKSTATS_PATH, R_OK)] (line 199). *)
Definition access_diskstats (cfg : config) (E : env) (SE : startup_env) : M Z :=
  io_step cfg E (fun w => (if access_at SE (now w) then 0 else -1, w)).

(** The globals while the command line is read: the two names are NULL
    until their option is seen. *)
Record globals : Type := {
  g_target_disk : option (list byte);
  g_target_led : option (list byte);
  g_debug_mode : bool
}.

Definition initial_globals : globals :=
  {| g_target_disk := None; g_target_led := None; g_debug_mode := false |}.

(** The option characters of ["d:l:vh"]. *)
Definition opt_d : Z := 100.
Definition opt_l : Z := 108.
Definition opt_v : Z := 118.
Definition opt_h : Z := 104.

(** The [while ((opt = getopt(...)) != -1)] loop (lines 149-167), over the
    values that [getopt] returns before -1, each with its [optarg]:
    the globals at the end of the command line, or the status with which
    [main] returns from inside the loop, after [print_usage]. *)
Fixpoint parse_options (returns : list (Z * list byte)) (g : globals)
    : globals + Z :=
  match returns with
  | [] => inl g
  | (opt, optarg) :: returns' =>
      if opt =? opt_d then
        parse_options returns'
          {| g_target_disk := Some optarg; g_target_led := g_target_led g;
             g_debug_mode := g_debug_mode g |}
      else if opt =? opt_l then
        parse_options returns'
          {| g_target_disk := g_target_disk g; g_target_led := Some optarg;
             g_debug_mode := g_debug_mode g |}
      else if opt =? opt_v then
        parse_options returns'
          {| g_target_disk := g_target_disk g; g_target_led := g_target_led g;
             g_debug_mode := true |}
      else if opt =? opt_h then inr 0
      else inr 1
  end.

(** What [main] itself prints. *)
Inductive main_message : Type :=
| Usage (program_name : list byte)   (* print_usage, lines 135-143 *)
| Error_arguments                    (* line 171 *)
| Printf_title                       (* line 177 *)
| Printf_monitoring                  (* line 178 *)
| Printf_controlling                 (* line 179 *)
| Error_led                          (* line 188 *)
| Error_disk                         (* line 194 *)
| Perror_access                      (* line 200 *)
| Printf_starting                    (* line 205 *)
| Printf_press.                      (* line 206 *)

(** The process: the world, and the messages of [main], each with the
    number of events that were in [out] when it was printed, which fixes
    its place among them. *)
Record process : Type := {
  pworld : world;
  plog : list (nat * main_message)
}.

Definition say (m : main_message) (p : process) : process :=
  {| pworld := pworld p;
     plog := plog p ++ [(length (out (pworld p)), m)] |}.

Definition run {A : Type} (m : M A) (p : process) : A * process :=
  (fst (m (pworld p)), {| pworld := snd (m (pworld p)); plog := plog p |}).

(** [main] (lines 145-235).  [led0] is the brightness the LED shows when
    the program starts; [returns] are the values [getopt] gives.  The
    handlers are installed (lines 183-184) before the first action that
    takes time, so that every signal of the environment finds them. *)
Definition main (T : target) (E : env) (SE : startup_env) (fuel : nat)
    (led0 : Z) (argv0 : list byte) (returns : list (Z * list byte))
    : option Z * process :=
  let p := {| pworld := {| now := O; running := 1; led := led0; out := [] |};
              plog := [] |} in
  match parse_options returns initial_globals with
  | inr status => (Some status, say (Usage argv0) p)
  | inl g =>
      match g_target_disk g, g_target_led g with
      | Some disk, Some led_name =>
          let cfg := {| target_disk := disk; target_led := led_name;
                        debug_mode := g_debug_mode g |} in
          let p := if g_debug_mode g
                   then say Printf_controlling
                          (say Printf_monitoring (say Printf_title p))
                   else p in
          let (led_exists, p) := run (check_led_exists cfg E SE) p in
          if led_exists =? 0 then (Some 1, say Error_led p)
          else
            let (disk_exists, p) := run (check_disk_exists cfg E) p in
            if disk_exists =? 0 then (Some 1, say Error_disk p)
            else
              let (status, p) := run (access_diskstats cfg E SE) p in
              if negb (status =? 0) then (Some 1, say Perror_access p)
              else
                let p := if g_debug_mode g
                         then say Printf_press (say Printf_starting p)
                         else p in
                run (main_monitor cfg T E fuel) p
      | _, _ => (Some 1, say (Usage argv0) (say Error_arguments p))
      end
  end.

(** The argument of the last option [opt] among [returns], [default] when
    there is none. *)
Fixpoint last_optarg (opt : Z) (returns : list (Z * list byte))
    (default : option (list byte)) : option (list byte) :=
  match returns with
  | [] => default
  | (c, optarg) :: returns' =>
      last_optarg opt returns' (if c =? opt then Some optarg else default)
  end.

(** [opt] is one of the options that let the loop go on. *)
Definition option_accepted (opt : Z) : bool :=
  (opt =? opt_d) || (opt =? opt_l) || (opt =? opt_v).

(** The value [check_disk_exists] returns when it is called at instant
    [t]. *)
Definition disk_listed (cfg : config) (E : env) (t : nat) : Z :=
  match diskstats_at E t with
  | None => 0
  | Some stream => check_disk_scan cfg (S (length stream)) stream
  end.

(** The messages of lines 177-179 and of lines 205-206. *)
Definition banner (debug : bool) : list main_message :=
  if debug then [Printf_title; Printf_monitoring; Printf_controlling] else [].

Definition starting (debug : bool) : list main_message :=
  if debug then [Printf_starting; Printf_press] else [].

(** The globals that stand for a configuration. *)
Definition globals_of (cfg : config) : globals :=
  {| g_target_disk := Some (target_disk cfg);
     g_target_led := Some (target_led cfg);
     g_debug_mode := debug_mode cfg |}.

(** The world in which [main] starts, and the worlds after each of its
    three checks. *)
Definition world_at_start (led0 : Z) : world :=
  {| now := O; running := 1; led := led0; out := [] |}.

Definition world_after_led_check (cfg : config) (E : env) (SE : startup_env)
    (led0 : Z) : world :=
  snd (check_led_exists cfg E SE (world_at_start led0)).

Definition world_after_disk_check (cfg : config) (E : env) (SE : startup_env)
    (led0 : Z) : world :=
  snd (check_disk_exists cfg E (world_after_led_check cfg E SE led0)).

Definition world_after_checks (cfg : config) (E : env) (SE : startup_env)
    (led0 : Z) : world :=
  snd (access_diskstats cfg E SE (world_after_disk_check cfg E SE led0)).

(** A LED whose brightness file can be read, statistics that can be
    accessed. *)
Definition startup_fine : startup_env :=
  {| readable_at := fun _ _ => true; access_at := fun _ => true |}.

(** No LED of that name. *)
Definition startup_no_led : startup_env :=
  {| readable_at := fun _ _ => false; access_at := fun _ => true |}.

(** The command line [-d sda -l led0 -v]. *)
Definition sample_returns : list (Z * list byte) :=
  [(opt_d, bytes "sda"); (opt_l, bytes "led0"); (opt_v, [])].

(** ** Completing a string to a given fingerprint *)

(** The [n] digits of [v] in base 33, most significant first. *)
Fixpoint base33_digits (n : nat) (v : Z) : list Z :=
  match n with
  | O => []
  | S k => v / 33 ^ Z.of_nat k :: base33_digits k (v mod 33 ^ Z.of_nat k)
  end.

(** The character that stands for a digit: 0 is written 0, 1 is written
    1, and so on through the ASCII table up to P for 32. *)
Definition byte_of_digit (d : Z) : byte :=
  match Byte.of_N (Z.to_N (d + 48)) with
  | Some b => b
  | None => "0"%byte
  end.

(** What [n] characters 0 contribute to the sum. *)
Fixpoint digits_offset (n : nat) : Z :=
  match n with
  | O => 0
  | S k => digits_offset k + 48 * 33 ^ Z.of_nat k
  end.

(** Thirteen characters that bring the fingerprint [h] to zero. *)
Definition zero_suffix (T : target) (h : Z) : list byte :=
  map byte_of_digit
      (base33_digits 13
         ((- (h * 33 ^ 13 + digits_offset 13)) mod 2 ^ ulong_bits T)).

(* ===================================================================== *)
(** * Part 2: properties *)
(* ===================================================================== *)

(** ** The change decision *)

Lemma has_changed_true (previous current : Z) :
  has_changed previous current = true <-> current <> previous /\ current <> 0.
Proof.
  unfold has_changed.
  rewrite andb_true_iff, !negb_true_iff, !Z.eqb_neq.
  reflexivity.
Qed.

Lemma has_changed_to_zero (previous : Z) : has_changed previous 0 = false.
Proof. unfold has_changed. simpl. apply andb_false_r. Qed.

Lemma has_changed_same (x : Z) : has_changed x x = false.
Proof. unfold has_changed. rewrite Z.eqb_refl. reflexivity. Qed.

(** C8, as stated, fails: with a zero baseline a non-zero reading does
    register as a change. *)
Lemma has_changed_zero_baseline_registers :
  ~ (forall y : Z, has_changed 0 y = false).
Proof.
  intros H. specialize (H 5381). vm_compute in H. discriminate H.
Qed.

(** C8, amended: it is a zero current reading that never registers,
    whatever the baseline; with a zero baseline, the reading registers as
    a change exactly when it is not zero. *)
Theorem has_changed_zero (x y : Z) :
  has_changed x 0 = false
  /\ (has_changed 0 y = true <-> y <> 0).
Proof.
  split.
  - apply has_changed_to_zero.
  - rewrite has_changed_true. split; [tauto|]. intros H. split; assumption.
Qed.

(** ** The fingerprint *)

Lemma ulong_bits_pos (T : target) : 0 < ulong_bits T.
Proof. unfold ulong_bits. destruct (model T); lia. Qed.

Lemma ulong_modulus_pos (T : target) : 0 < 2 ^ ulong_bits T.
Proof. apply Z.pow_pos_nonneg; [lia | pose proof (ulong_bits_pos T); lia]. Qed.

(** One round of the loop computes [hash * 33 + c] modulo the word size. *)
Lemma hash_round (T : target) (hash c : Z) :
  ulong_add T (ulong_add T (ulong_shl T hash 5) hash) (ulong_of_int T c)
  = ulong_wrap T (hash * 33 + c).
Proof.
  unfold ulong_add, ulong_shl, ulong_of_int, ulong_wrap.
  pose proof (ulong_modulus_pos T) as Hm.
  rewrite Z.shiftl_mul_pow2 by lia.
  rewrite Z.add_mod_idemp_r by lia.
  rewrite Z.add_mod_idemp_l by lia.
  rewrite <- Z.add_assoc.
  rewrite Z.add_mod_idemp_l by lia.
  f_equal. change (2 ^ 5) with 32. lia.
Qed.

Lemma char_value_zero (T : target) (b : byte) :
  (char_value T b =? 0) = Byte.eqb b NUL.
Proof.
  unfold char_value. destruct (char_signed T); destruct b; reflexivity.
Qed.

Lemma hash_string_loop_fold (T : target) (str : list byte) :
  forall hash,
    hash_string_loop T hash str
    = fold_left (fun acc b => ulong_wrap T (acc * 33 + char_value T b))
                (cstr str) hash.
Proof.
  induction str as [|b str IH]; intros hash; simpl.
  - reflexivity.
  - rewrite char_value_zero. destruct (Byte.eqb b NUL).
    + reflexivity.
    + simpl. rewrite hash_round. apply IH.
Qed.

Lemma char_value_ascii (T : target) (b : byte) :
  char_signed T = false \/ byte_unsigned b < 128 ->
  char_value T b = byte_unsigned b.
Proof.
  unfold char_value. intros [H|H].
  - rewrite H. reflexivity.
  - destruct (128 <=? byte_unsigned b) eqn:He.
    + apply Z.leb_le in He. lia.
    + rewrite andb_false_r. reflexivity.
Qed.

Lemma djb2_reference_ext (T : target) (f g : byte -> Z) (line : list byte) :
  Forall (fun b => f b = g b) line ->
  djb2_reference T f line = djb2_reference T g line.
Proof.
  unfold djb2_reference. generalize 5381.
  induction line as [|b line IH]; intros seed Hall; simpl.
  - reflexivity.
  - inversion Hall as [|? ? Hb Hrest]; subst.
    rewrite Hb. apply IH. assumption.
Qed.

(** C2, as stated, fails where [char] is signed: a byte above 127 does
    not enter the sum as the byte (a number between 0 and 255).  On a
    64-bit x86 target the string made of the single byte 255 has
    fingerprint [5381 * 33 - 1], not [5381 * 33 + 255]. *)
Lemma hash_string_signed_char_differs :
  ~ (forall (T : target) (str : list byte),
        hash_string T str = djb2_reference T byte_unsigned (cstr str)).
Proof.
  intros Hclaim.
  specialize (Hclaim x86_64 [xff]).
  vm_compute in Hclaim. discriminate Hclaim.
Qed.

(** C2, amended: [hash_string] is the DJB2 function over the characters
    as C reads them: from seed 5381, each character of the string (up to
    its first NUL) turns the accumulator into [accumulator * 33 + c] in
    [unsigned long] arithmetic, where [c] is the value of the [char]: the
    byte, between 0 and 255, where [char] is unsigned and for every byte
    below 128 on all targets, and the byte minus 256 for a byte above 127
    where [char] is signed.  Equal strings have equal fingerprints; the
    empty string hashes to 5381, which is not the zero sentinel. *)
Theorem hash_string_is_djb2 (T : target) (str : list byte) :
  hash_string T str = djb2_reference T (char_value T) (cstr str)
  /\ (forall str', str' = str -> hash_string T str' = hash_string T str)
  /\ hash_string T [] = 5381
  /\ hash_string T [] <> 0
  /\ (char_signed T = false \/
      Forall (fun b => byte_unsigned b < 128) (cstr str) ->
      hash_string T str = djb2_reference T byte_unsigned (cstr str))
  /\ (forall b,
         char_signed T = true -> 128 <= byte_unsigned b ->
         char_value T b = byte_unsigned b - 256).
Proof.
  assert (Href : hash_string T str = djb2_reference T (char_value T) (cstr str)).
  { unfold hash_string, djb2_reference. apply hash_string_loop_fold. }
  split; [exact Href|].
  split; [intros str' ->; reflexivity|].
  split; [reflexivity|].
  split; [discriminate|].
  split.
  - intros H. rewrite Href. apply djb2_reference_ext.
    destruct H as [H|H].
    + apply Forall_forall. intros b _. apply char_value_ascii. left. exact H.
    + apply Forall_impl with (2 := H). intros b Hb.
      apply char_value_ascii. right. exact Hb.
  - intros b Hsigned Hhigh. unfold char_value. rewrite Hsigned.
    apply Z.leb_le in Hhigh. rewrite Hhigh. reflexivity.
Qed.

Lemma hash_string_is_djb2_witness :
  hash_string x86_64 (bytes "sda") = 193505629
  /\ hash_string x86_64 (bytes "sda")
     = djb2_reference x86_64 byte_unsigned (bytes "sda")
  /\ char_value x86_64 xff = -1.
Proof.
  split; [reflexivity|].
  destruct (hash_string_is_djb2 x86_64 (bytes "sda"))
    as (_ & _ & _ & _ & Hascii & Hsigned).
  split.
  - apply Hascii. right. vm_compute. repeat constructor.
  - apply (Hsigned xff); [reflexivity|]. vm_compute. discriminate.
Defined.

(** Where [char] is signed, a byte above 127 enters the sum as a negative
    number; where it is unsigned, as a number between 128 and 255. *)
Example hash_string_high_byte :
  hash_string x86_64 [xff] = 5381 * 33 - 1
  /\ hash_string arm32 [xff] = 5381 * 33 + 255.
Proof. split; reflexivity. Qed.

(** ** The C library functions *)

Lemma byte_eqb_eq (a b : byte) : Byte.eqb a b = true <-> a = b.
Proof. split; [apply Byte.byte_dec_bl | apply Byte.byte_dec_lb]. Qed.

Lemma byte_eqb_neq (a b : byte) : Byte.eqb a b = false <-> a <> b.
Proof.
  split.
  - apply Byte.eqb_false.
  - intros H. destruct (Byte.eqb a b) eqn:Heq; [|reflexivity].
    apply byte_eqb_eq in Heq. contradiction.
Qed.

Lemma cstr_nul_free (s : list byte) : ~ In NUL s -> cstr s = s.
Proof.
  induction s as [|b s IH]; intros Hnul; simpl.
  - reflexivity.
  - destruct (Byte.eqb b NUL) eqn:Hb.
    + apply byte_eqb_eq in Hb. exfalso. apply Hnul. left. exact Hb.
    + f_equal. apply IH. intros Hin. apply Hnul. right. exact Hin.
Qed.

Lemma is_prefix_spec (needle haystack : list byte) :
  is_prefix needle haystack = true <-> exists after, haystack = needle ++ after.
Proof.
  revert haystack.
  induction needle as [|n needle IH]; intros haystack; simpl.
  - split; [intros _; exists haystack; reflexivity | reflexivity].
  - destruct haystack as [|h haystack].
    + split; [discriminate | intros [after H]; discriminate H].
    + rewrite andb_true_iff, byte_eqb_eq, IH. split.
      * intros [-> [after ->]]. exists after. reflexivity.
      * intros [after H]. injection H as -> ->. split; [reflexivity|].
        exists after. reflexivity.
Qed.

Lemma contains_cons (needle : list byte) (h : byte) (haystack : list byte) :
  contains needle (h :: haystack) <->
  (exists after, h :: haystack = needle ++ after) \/ contains needle haystack.
Proof.
  split.
  - intros [[|b before] [after H]].
    + left. exists after. exact H.
    + right. injection H as _ H. exists before, after. exact H.
  - intros [[after H] | [before [after H]]].
    + exists [], after. exact H.
    + exists (h :: before), after. simpl. f_equal. exact H.
Qed.

(** [strstr] finds the needle exactly when it occurs as a substring. *)
Lemma strstr_from_spec (haystack needle : list byte) :
  strstr_from haystack needle <> None <-> contains needle haystack.
Proof.
  induction haystack as [|h haystack IH].
  - simpl. destruct (is_prefix needle []) eqn:Hp.
    + split; [|discriminate]. intros _.
      apply is_prefix_spec in Hp. destruct Hp as [after H].
      exists [], after. exact H.
    + split; [intros H; contradiction H; reflexivity|].
      intros [before [after H]].
      assert (Hn : needle = []).
      { destruct before; [|discriminate H]. destruct needle; [reflexivity|].
        discriminate H. }
      subst needle. discriminate Hp.
  - rewrite contains_cons, <- IH, <- is_prefix_spec.
    change (strstr_from (h :: haystack) needle)
      with (if is_prefix needle (h :: haystack) then Some O
            else option_map S (strstr_from haystack needle)).
    destruct (is_prefix needle (h :: haystack)).
    + split; [left; reflexivity | discriminate].
    + destruct (strstr_from haystack needle).
      * split; [right; discriminate | discriminate].
      * split; [intros H; contradiction H; reflexivity|].
        intros [H|H]; [discriminate H | contradiction H; reflexivity].
Qed.

(** [fgets] returns a whole line when the line fits the buffer. *)
Lemma fgets_loop_line (body rest : list byte) :
  ~ In newline body ->
  forall room, (length body < room)%nat ->
  fgets_loop room (body ++ newline :: rest) = (body ++ [newline], rest).
Proof.
  induction body as [|b body IH]; intros Hnl room Hroom.
  - destruct room as [|room]; [lia|]. reflexivity.
  - destruct room as [|room]; [simpl in Hroom; lia|].
    simpl. destruct (Byte.eqb b newline) eqn:Hb.
    + apply byte_eqb_eq in Hb. exfalso. apply Hnl. left. exact Hb.
    + rewrite IH.
      * reflexivity.
      * intros Hin. apply Hnl. right. exact Hin.
      * simpl in Hroom. lia.
Qed.

Lemma fgets_loop_last (l : list byte) :
  ~ In newline l ->
  forall room, (length l <= room)%nat ->
  fgets_loop room l = (l, []).
Proof.
  induction l as [|b l IH]; intros Hnl room Hroom.
  - destruct room; reflexivity.
  - destruct room as [|room]; [simpl in Hroom; lia|].
    simpl. destruct (Byte.eqb b newline) eqn:Hb.
    + apply byte_eqb_eq in Hb. exfalso. apply Hnl. left. exact Hb.
    + rewrite IH.
      * reflexivity.
      * intros Hin. apply Hnl. right. exact Hin.
      * simpl in Hroom. lia.
Qed.

Lemma fgets_line (body rest : list byte) (size : nat) :
  ~ In newline body ->
  (length (body ++ [newline]) < size)%nat ->
  fgets size (body ++ newline :: rest) = Some (body ++ [newline], rest).
Proof.
  intros Hnl Hsize. rewrite length_app in Hsize. simpl in Hsize.
  unfold fgets.
  rewrite fgets_loop_line by (assumption || lia).
  destruct body; reflexivity.
Qed.

Lemma fgets_last (l : list byte) (size : nat) :
  l <> [] -> ~ In newline l -> (length l < size)%nat ->
  fgets size l = Some (l, []).
Proof.
  intros Hne Hnl Hsize. unfold fgets.
  rewrite fgets_loop_last by (assumption || lia).
  destruct l; [contradiction Hne; reflexivity | reflexivity].
Qed.

(** ** The record extractor *)

Section Extractor.

Variable cfg : config.
Variable T : target.

Lemma line_matches_spec (buffer : list byte) :
  ~ In NUL buffer ->
  line_matches (target_disk cfg) buffer = true <->
  contains (cstr (target_disk cfg)) buffer.
Proof.
  intros Hnul. unfold line_matches, strstr.
  rewrite (cstr_nul_free buffer Hnul), <- strstr_from_spec.
  destruct (strstr_from buffer (cstr (target_disk cfg))).
  - split; [discriminate | reflexivity].
  - split; [discriminate | intros H; contradiction H; reflexivity].
Qed.

Lemma diskstats_scan_step (fuel : nat) (buffer stream stream' : list byte) :
  fgets MAX_LINE_LENGTH stream = Some (buffer, stream') ->
  diskstats_scan cfg T (S fuel) stream
  = if line_matches (target_disk cfg) buffer
    then (true, hash_string T buffer)
    else diskstats_scan cfg T fuel stream'.
Proof.
  intros Hget. unfold line_matches. simpl diskstats_scan. rewrite Hget.
  destruct (strstr buffer (target_disk cfg)); reflexivity.
Qed.

Lemma diskstats_scan_eof (fuel : nat) : diskstats_scan cfg T fuel [] = (false, 0).
Proof. destruct fuel; reflexivity. Qed.

(** On a file whose lines fit the buffer, the loop is a search for the
    first matching line. *)
Lemma diskstats_scan_find (lines : list (list byte)) :
  text_lines lines ->
  Forall (fun l => (length l < MAX_LINE_LENGTH)%nat) lines ->
  forall fuel, (length (concat lines) < fuel)%nat ->
  diskstats_scan cfg T fuel (concat lines)
  = match find (line_matches (target_disk cfg)) lines with
    | Some l => (true, hash_string T l)
    | None => (false, 0)
    end.
Proof.
  induction 1 as [|l Hne Hnl|body ls Hnl Hls IH]; intros Hshort fuel Hfuel.
  - apply diskstats_scan_eof.
  - inversion Hshort as [|? ? Hl _]; subst.
    simpl concat in *. rewrite app_nil_r in *.
    destruct fuel as [|fuel]; [lia|].
    rewrite (diskstats_scan_step fuel l l []) by (apply fgets_last; assumption).
    simpl find. destruct (line_matches (target_disk cfg) l).
    + reflexivity.
    + apply diskstats_scan_eof.
  - inversion Hshort as [|? ? Hl Hrest]; subst.
    simpl concat in *. rewrite <- app_assoc in *. simpl app in *.
    destruct fuel as [|fuel]; [lia|].
    rewrite (diskstats_scan_step fuel (body ++ [newline])
               (body ++ newline :: concat ls) (concat ls))
      by (apply fgets_line; assumption).
    simpl find. destruct (line_matches (target_disk cfg) (body ++ [newline])).
    + reflexivity.
    + apply IH; [assumption|].
      rewrite length_app in Hfuel. simpl in Hfuel. lia.
Qed.

Lemma find_first_containing (p : list byte -> bool) (key : list byte)
    (lines : list (list byte)) (l : list byte) :
  (forall l', In l' lines -> (p l' = true <-> contains key l')) ->
  first_containing key lines l ->
  find p lines = Some l.
Proof.
  intros Hp (above & below & -> & Habove & Hl).
  induction above as [|a above IH]; simpl.
  - destruct (p l) eqn:Hpl; [reflexivity|].
    assert (p l = true) by (apply Hp; [left; reflexivity | exact Hl]).
    congruence.
  - inversion Habove as [|? ? Ha Hrest]; subst.
    destruct (p a) eqn:Hpa.
    + exfalso. apply Ha. apply Hp; [left; reflexivity | exact Hpa].
    + apply IH; [|assumption].
      intros l' Hin. apply Hp. right. exact Hin.
Qed.

Lemma find_none_iff (p : list byte -> bool) (key : list byte)
    (lines : list (list byte)) :
  (forall l', In l' lines -> (p l' = true <-> contains key l')) ->
  find p lines = None <-> (forall l', In l' lines -> ~ contains key l').
Proof.
  intros Hp. split.
  - intros Hnone l' Hin Hc.
    pose proof (find_none _ _ Hnone l' Hin) as Hfalse.
    apply Hp in Hc; [|exact Hin]. congruence.
  - intros Hno. destruct (find p lines) as [l|] eqn:Hf; [|reflexivity].
    apply find_some in Hf. destruct Hf as [Hin Hpl].
    exfalso. apply (Hno l Hin). apply Hp; assumption.
Qed.

End Extractor.

(** ** Execution of the primitive actions *)

Lemma bind_eq {A B : Type} (m : M A) (k : A -> M B) (w : world) :
  bind m k w = k (fst (m w)) (snd (m w)).
Proof. unfold bind. destruct (m w). reflexivity. Qed.

Lemma device_trace_app (evs1 evs2 : list event) :
  device_trace (evs1 ++ evs2) = device_trace evs1 ++ device_trace evs2.
Proof.
  induction evs1 as [|e evs1 IH]; simpl.
  - reflexivity.
  - destruct e; simpl; rewrite IH; reflexivity.
Qed.

Lemma device_trace_signals (sigs : list Z) :
  device_trace (map Printf_signal sigs) = [].
Proof. induction sigs; simpl; auto. Qed.

Lemma any_signal_add (E : env) (j k : nat) :
  forall t, any_signal E t (j + k)
            = any_signal E t j || any_signal E (t + j) k.
Proof.
  induction j as [|j IH]; intros t; simpl.
  - rewrite Nat.add_0_r. reflexivity.
  - destruct (signals_at E t); [|reflexivity].
    rewrite IH. rewrite <- plus_n_Sm. reflexivity.
Qed.

Lemma run_effect_refl (E : env) (w : world) : run_effect E 0 w w [].
Proof.
  unfold run_effect. simpl. rewrite Nat.add_0_r, app_nil_r. auto.
Qed.

Lemma run_effect_trans (E : env) (j k : nat) (w w1 w2 : world)
    (d1 d2 : list event) :
  run_effect E j w w1 d1 -> run_effect E k w1 w2 d2 ->
  run_effect E (j + k) w w2 (d1 ++ d2).
Proof.
  intros (Hn1 & Hr1 & Hd1 & Hl1) (Hn2 & Hr2 & Hd2 & Hl2).
  unfold run_effect. repeat split.
  - lia.
  - rewrite Hr2, Hr1, Hn1, any_signal_add.
    destruct (any_signal E (now w) j), (any_signal E (now w + j) k);
      reflexivity.
  - rewrite Hd2, Hd1, app_assoc. reflexivity.
  - rewrite Hl2, Hl1. unfold led_after. rewrite fold_left_app. reflexivity.
Qed.

Section Actions.

Variable cfg : config.
Variable T : target.
Variable E : env.

Lemma signal_handler_eq (sig : Z) (w : world) :
  signal_handler cfg sig w = (tt, after_signals cfg [sig] w).
Proof.
  unfold signal_handler, after_signals, when, bind, emit, set_running, ret.
  destruct (debug_mode cfg); simpl.
  - reflexivity.
  - rewrite app_nil_r. reflexivity.
Qed.

Lemma handle_signals_eq (sigs : list Z) :
  forall w, handle_signals cfg sigs w = (tt, after_signals cfg sigs w).
Proof.
  induction sigs as [|sig sigs IH]; intros w.
  - unfold after_signals. simpl. destruct w; simpl.
    destruct (debug_mode cfg); rewrite app_nil_r; reflexivity.
  - simpl handle_signals. rewrite bind_eq, signal_handler_eq, IH. simpl.
    unfold after_signals. simpl. f_equal. f_equal.
    + destruct sigs; reflexivity.
    + rewrite <- app_assoc. destruct (debug_mode cfg); reflexivity.
Qed.

(** The world in which the action of instant [now w] runs. *)
Lemma io_step_eq {A : Type} (action : M A) (w : world) :
  io_step cfg E action w
  = (fst (action (after_signals cfg (signals_at E (now w)) w)),
     snd (advance (snd (action (after_signals cfg (signals_at E (now w)) w))))).
Proof.
  unfold io_step. rewrite bind_eq. unfold deliver_signals.
  rewrite handle_signals_eq. simpl fst. simpl snd.
  rewrite bind_eq, bind_eq. reflexivity.
Qed.

End Actions.

(** ** Effect of each function on the world *)

Section Effects.

Variable cfg : config.
Variable T : target.
Variable E : env.

Lemma device_trace_after_signals (sigs : list Z) (w : world) :
  device_trace (out (after_signals cfg sigs w)) = device_trace (out w).
Proof.
  unfold after_signals. simpl. rewrite device_trace_app.
  destruct (debug_mode cfg); simpl.
  - rewrite device_trace_signals. apply app_nil_r.
  - apply app_nil_r.
Qed.

Lemma any_signal_one (t : nat) (v : Z) :
  match signals_at E t with [] => v | _ :: _ => 0 end
  = if any_signal E t 1 then 0 else v.
Proof. simpl. destruct (signals_at E t); reflexivity. Qed.

(** An action that only writes diagnostics takes one instant and leaves
    the devices alone. *)
Lemma io_step_effect {A : Type} (action : M A) (w : world) (devs : list event) :
  (forall w0,
      now w0 = now w ->
      now (snd (action w0)) = now w0
      /\ running (snd (action w0)) = running w0
      /\ device_trace (out (snd (action w0))) = device_trace (out w0) ++ devs
      /\ led (snd (action w0)) = led_after devs (led w0)) ->
  run_effect E 1 w (snd (io_step cfg E action w)) devs.
Proof.
  intros Haction. rewrite io_step_eq. simpl snd.
  destruct (Haction (after_signals cfg (signals_at E (now w)) w) eq_refl)
    as (Hn & Hr & Hd & Hl).
  unfold run_effect. simpl. rewrite Hn, Hr, Hd, Hl.
  rewrite device_trace_after_signals. simpl.
  repeat split.
  - lia.
  - destruct (signals_at E (now w)); reflexivity.
Qed.

Lemma get_diskstats_hash_result (w : world) :
  fst (get_diskstats_hash cfg T E w) = reading cfg T E (now w).
Proof.
  unfold get_diskstats_hash, reading. rewrite io_step_eq. cbn [fst].
  rewrite bind_eq. unfold fopen_diskstats. cbn [fst snd now after_signals].
  destruct (diskstats_at E (now w)) as [stream|].
  - destruct (diskstats_scan cfg T (S (length stream)) stream) as [found hash].
    rewrite bind_eq. reflexivity.
  - rewrite bind_eq. reflexivity.
Qed.

Lemma get_diskstats_hash_effect (w : world) :
  run_effect E 1 w (snd (get_diskstats_hash cfg T E w)) [].
Proof.
  unfold get_diskstats_hash. apply io_step_effect. intros w0 _.
  rewrite bind_eq. unfold fopen_diskstats. cbn [fst snd].
  destruct (diskstats_at E (now w0)) as [stream|].
  - destruct (diskstats_scan cfg T (S (length stream)) stream) as [found hash].
    rewrite bind_eq. unfold when.
    destruct (negb found && debug_mode cfg); simpl;
      rewrite ?device_trace_app, ?app_nil_r; simpl;
      rewrite ?app_nil_r; auto.
  - rewrite bind_eq. unfold when.
    destruct (debug_mode cfg); simpl;
      rewrite ?device_trace_app, ?app_nil_r; simpl;
      rewrite ?app_nil_r; auto.
Qed.

Lemma set_led_brightness_result (brightness : Z) (w : world) :
  fst (set_led_brightness cfg E brightness w)
  = match led_at E (now w) with
    | Open_fails => -1
    | Write_fails | Write_ok => 0
    end.
Proof.
  unfold set_led_brightness. rewrite io_step_eq. simpl fst.
  rewrite bind_eq. unfold fopen_led at 1. simpl fst. simpl now.
  rewrite bind_eq.
  destruct (led_at E (now w)); rewrite ?bind_eq; reflexivity.
Qed.

Lemma set_led_brightness_effect (brightness : Z) (w : world) :
  run_effect E 1 w (snd (set_led_brightness cfg E brightness w))
             [Led_write brightness (led_at E (now w))].
Proof.
  unfold set_led_brightness. apply io_step_effect. intros w0 Hnow.
  rewrite bind_eq. unfold fopen_led. cbn [fst snd]. rewrite Hnow.
  rewrite bind_eq. unfold when.
  destruct (led_at E (now w)); rewrite ?bind_eq;
    destruct (debug_mode cfg); simpl;
    rewrite ?device_trace_app; simpl; rewrite ?app_nil_r; auto.
Qed.

Lemma usleep_effect (usec : Z) (w : world) :
  run_effect E 1 w (snd (usleep cfg E usec w)) [Usleep usec].
Proof.
  unfold usleep. apply io_step_effect. intros w0 _. simpl.
  rewrite device_trace_app. auto.
Qed.

Lemma read_running_result (w : world) :
  fst (io_step cfg E read_running w)
  = if any_signal E (now w) 1 then 0 else running w.
Proof.
  rewrite io_step_eq. simpl. destruct (signals_at E (now w)); reflexivity.
Qed.

Lemma read_running_effect (w : world) :
  run_effect E 1 w (snd (io_step cfg E read_running w)) [].
Proof.
  apply io_step_effect. intros w0 _. simpl. rewrite app_nil_r. auto.
Qed.

End Effects.

(** ** Effect of a pulse, of a tick and of the loop *)

Section Loop.

Variable cfg : config.
Variable T : target.
Variable E : env.

Lemma blink_led_effect (w : world) :
  run_effect E 3 w (snd (blink_led cfg E w)) (pulse E (now w)).
Proof.
  unfold blink_led. rewrite !bind_eq. cbn [ret snd].
  set (w1 := snd (set_led_brightness cfg E 1 w)).
  set (w2 := snd (usleep cfg E LED_BLINK_DURATION w1)).
  pose proof (set_led_brightness_effect cfg E 1 w) as H1. fold w1 in H1.
  pose proof (usleep_effect cfg E LED_BLINK_DURATION w1) as H2. fold w2 in H2.
  pose proof (set_led_brightness_effect cfg E 0 w2) as H3.
  assert (Hnow : now w2 = (now w + 2)%nat).
  { destruct H1 as (Hn1 & _). destruct H2 as (Hn2 & _). lia. }
  rewrite Hnow in H3.
  exact (run_effect_trans E 1 2 _ _ _ _ _ H1
           (run_effect_trans E 1 1 _ _ _ _ _ H2 H3)).
Qed.

Lemma diagnostic_effect (c : bool) (e : event) (w : world) :
  device_trace [e] = [] ->
  run_effect E 0 w (snd (when c (emit e) w)) [].
Proof.
  intros He. unfold when, run_effect. destruct c; simpl.
  - rewrite device_trace_app, He, Nat.add_0_r. auto.
  - rewrite Nat.add_0_r, app_nil_r. auto.
Qed.

Lemma main_tick_result (l : locals) (w : world) :
  fst (main_tick cfg T E l w) = next_locals l (reading cfg T E (now w)).
Proof.
  unfold main_tick, next_locals. rewrite bind_eq, get_diskstats_hash_result.
  rewrite bind_eq, bind_eq. cbn [ret fst].
  destruct (has_changed (last_hash l) (reading cfg T E (now w))).
  - rewrite !bind_eq. reflexivity.
  - reflexivity.
Qed.

Lemma main_tick_effect (l : locals) (w : world) :
  run_effect E
    (if has_changed (last_hash l) (reading cfg T E (now w)) then 5 else 2)
    w (snd (main_tick cfg T E l w))
    (if has_changed (last_hash l) (reading cfg T E (now w))
     then pulse E (now w + 1) ++ [Usleep MONITOR_INTERVAL]
     else [Usleep MONITOR_INTERVAL]).
Proof.
  unfold main_tick. rewrite bind_eq, get_diskstats_hash_result.
  pose proof (get_diskstats_hash_effect cfg T E w) as H1.
  set (w1 := snd (get_diskstats_hash cfg T E w)) in *.
  assert (Hnow : now w1 = (now w + 1)%nat) by (destruct H1 as (Hn & _); exact Hn).
  rewrite bind_eq, bind_eq. cbn [ret snd].
  destruct (has_changed (last_hash l) (reading cfg T E (now w))).
  - rewrite !bind_eq. cbn [ret snd].
    set (count := int_wrap (activity_count l + 1)).
    pose proof (diagnostic_effect (debug_mode cfg) (Printf_activity count) w1
                  eq_refl) as H2.
    set (w2 := snd (when (debug_mode cfg) (emit (Printf_activity count)) w1)) in *.
    pose proof (blink_led_effect w2) as H3.
    assert (Hnow2 : now w2 = (now w + 1)%nat).
    { destruct H2 as (Hn & _). lia. }
    rewrite Hnow2 in H3.
    set (w3 := snd (blink_led cfg E w2)) in *.
    pose proof (usleep_effect cfg E MONITOR_INTERVAL w3) as H4.
    exact (run_effect_trans E 1 4 _ _ _ _ _ H1
             (run_effect_trans E 0 4 _ _ _ _ _ H2
                (run_effect_trans E 3 1 _ _ _ _ _ H3 H4))).
  - pose proof (usleep_effect cfg E MONITOR_INTERVAL w1) as H2.
    exact (run_effect_trans E 1 1 _ _ _ _ _ H1 H2).
Qed.

(** One round of the [while] loop: the flag is read once, at the top. *)
Lemma main_loop_round (fuel : nat) (l : locals) (w : world) :
  main_loop cfg T E (S fuel) l w
  = if fst (io_step cfg E read_running w) =? 0
    then (Some l, snd (io_step cfg E read_running w))
    else main_loop cfg T E fuel
           (fst (main_tick cfg T E l (snd (io_step cfg E read_running w))))
           (snd (main_tick cfg T E l (snd (io_step cfg E read_running w)))).
Proof.
  cbn [main_loop]. rewrite bind_eq.
  destruct (fst (io_step cfg E read_running w) =? 0).
  - reflexivity.
  - rewrite bind_eq. reflexivity.
Qed.

Lemma int_wrap_succ (count : Z) :
  INT_MIN <= count < INT_MAX -> int_wrap (count + 1) = count + 1.
Proof.
  unfold INT_MIN, INT_MAX, int_wrap. intros H.
  change (2 ^ 31) with 2147483648. change (2 ^ 32) with 4294967296.
  rewrite Z.mod_small by lia. lia.
Qed.

End Loop.

(** ** The pulse *)

(** C10: in every pulse the write of brightness 0 is attempted after the
    hold, whatever became of the write of brightness 1, in particular when
    the latter failed; and the pulse leaves the LED off as soon as that
    last write succeeds. *)
Theorem blink_led_always_turns_off (cfg : config) (E : env) (w : world) :
  device_trace (out (snd (blink_led cfg E w)))
  = device_trace (out w)
    ++ [Led_write 1 (led_at E (now w)); Usleep LED_BLINK_DURATION;
        Led_write 0 (led_at E (now w + 2))]
  /\ (led_at E (now w + 2) = Write_ok -> led (snd (blink_led cfg E w)) = 0).
Proof.
  destruct (blink_led_effect cfg E w) as (_ & _ & Hd & Hl).
  split; [exact Hd|].
  intros Hok. rewrite Hl. unfold pulse, led_after. simpl.
  rewrite Hok. reflexivity.
Qed.

Lemma blink_led_always_turns_off_witness :
  device_trace (out (snd (blink_led sample_cfg env_led_broken initial_world)))
  = [Led_write 1 Open_fails; Usleep LED_BLINK_DURATION; Led_write 0 Open_fails]
  /\ led (snd (blink_led sample_cfg env_changed initial_world)) = 0.
Proof.
  split.
  - exact (proj1 (blink_led_always_turns_off sample_cfg env_led_broken
                    initial_world)).
  - apply (proj2 (blink_led_always_turns_off sample_cfg env_changed
                    initial_world)).
    reflexivity.
Defined.

(** ** One tick of the monitor loop *)

(** C1: the change decision of a tick is true exactly when the current
    fingerprint differs from the previous one and is not zero; a zero
    current fingerprint never registers, and neither does a fingerprint
    equal to the previous one; and a tick writes to the LED exactly when
    the decision on its baseline and its reading is true. *)
Theorem change_decision (previous current : Z) :
  (has_changed previous current = true <->
   current <> previous /\ current <> 0)
  /\ has_changed previous 0 = false
  /\ has_changed current current = false
  /\ (forall (cfg : config) (T : target) (E : env) (l : locals) (w : world),
         device_trace (out (snd (main_tick cfg T E l w)))
         = device_trace (out w)
           ++ (if has_changed (last_hash l) (fst (get_diskstats_hash cfg T E w))
               then [Led_write 1 (led_at E (now w + 1));
                     Usleep LED_BLINK_DURATION;
                     Led_write 0 (led_at E (now w + 3));
                     Usleep MONITOR_INTERVAL]
               else [Usleep MONITOR_INTERVAL])).
Proof.
  split; [apply has_changed_true|].
  split; [apply has_changed_to_zero|].
  split; [apply has_changed_same|].
  intros cfg T E l w. rewrite get_diskstats_hash_result.
  pose proof (main_tick_effect cfg T E l w) as (_ & _ & Hd & _).
  rewrite Hd.
  destruct (has_changed (last_hash l) (reading cfg T E (now w)));
    [|reflexivity].
  unfold pulse. simpl.
  replace (now w + 1 + 2)%nat with (now w + 3)%nat by lia. reflexivity.
Qed.

(** C3: on a tick whose reading is not zero and differs from the baseline,
    the device sees exactly one pulse followed by the poll sleep, the
    activity counter is incremented once, and the baseline handed to the
    next round is the new fingerprint; on a tick whose reading equals the
    baseline the device sees the poll sleep only and the locals are left
    as they were. *)
Theorem tick_pulses_once_on_change (cfg : config) (T : target) (E : env)
    (l : locals) (w : world) :
  let current := fst (get_diskstats_hash cfg T E w) in
  let r := main_tick cfg T E l w in
  (current <> 0 -> current <> last_hash l ->
   device_trace (out (snd r))
   = device_trace (out w)
     ++ [Led_write 1 (led_at E (now w + 1)); Usleep LED_BLINK_DURATION;
         Led_write 0 (led_at E (now w + 3)); Usleep MONITOR_INTERVAL]
   /\ activity_count (fst r) = int_wrap (activity_count l + 1)
   /\ (INT_MIN <= activity_count l < INT_MAX ->
       activity_count (fst r) = activity_count l + 1)
   /\ last_hash (fst r) = current)
  /\ (current = last_hash l ->
      device_trace (out (snd r)) = device_trace (out w) ++ [Usleep MONITOR_INTERVAL]
      /\ fst r = l).
Proof.
  intros current r. subst current r.
  rewrite get_diskstats_hash_result, main_tick_result.
  pose proof (main_tick_effect cfg T E l w) as (_ & _ & Hd & _).
  unfold next_locals. split.
  - intros Hnz Hne.
    assert (Hc : has_changed (last_hash l) (reading cfg T E (now w)) = true)
      by (apply has_changed_true; split; assumption).
    rewrite Hc in *. cbn [last_hash activity_count].
    split; [|split; [|split]].
    + rewrite Hd. unfold pulse. simpl.
      replace (now w + 1 + 2)%nat with (now w + 3)%nat by lia. reflexivity.
    + reflexivity.
    + apply int_wrap_succ.
    + reflexivity.
  - intros Heq.
    assert (Hc : has_changed (last_hash l) (reading cfg T E (now w)) = false).
    { rewrite Heq. apply has_changed_same. }
    rewrite Hc in *. split; [exact Hd | reflexivity].
Qed.

Lemma tick_pulses_once_on_change_witness :
  device_trace (out (snd tick_changed))
  = [Led_write 1 Write_ok; Usleep LED_BLINK_DURATION;
     Led_write 0 Write_ok; Usleep MONITOR_INTERVAL]
  /\ activity_count (fst tick_changed) = 1
  /\ last_hash (fst tick_changed) = hash_string x86_64 (sda_body_2 ++ [newline]).
Proof.
  unfold tick_changed.
  destruct (tick_pulses_once_on_change sample_cfg x86_64 env_changed
              baseline_1 initial_world) as [H _].
  destruct H as (Hd & _ & Hc & Hl).
  - vm_compute. discriminate.
  - vm_compute. discriminate.
  - split; [|split].
    + exact Hd.
    + apply Hc. unfold INT_MIN, INT_MAX, baseline_1. simpl. lia.
    + rewrite Hl. vm_compute. reflexivity.
Defined.

Lemma diskstats_scan_not_found (cfg : config) (T : target) (fuel : nat) :
  forall stream,
    fst (diskstats_scan cfg T fuel stream) = false ->
    snd (diskstats_scan cfg T fuel stream) = 0.
Proof.
  induction fuel as [|fuel IH]; intros stream; [reflexivity|].
  cbn [diskstats_scan].
  destruct (fgets MAX_LINE_LENGTH stream) as [[buffer stream']|];
    [|reflexivity].
  destruct (strstr buffer (target_disk cfg)).
  - discriminate.
  - apply IH.
Qed.

Lemma main_tick_zero_reading (cfg : config) (T : target) (E : env)
    (l : locals) (w : world) :
  reading cfg T E (now w) = 0 ->
  fst (main_tick cfg T E l w) = l
  /\ run_effect E 2 w (snd (main_tick cfg T E l w)) [Usleep MONITOR_INTERVAL].
Proof.
  intros Hzero.
  pose proof (main_tick_effect cfg T E l w) as Heff.
  rewrite main_tick_result. unfold next_locals.
  rewrite Hzero in *.
  rewrite has_changed_to_zero in *.
  split; [reflexivity | exact Heff].
Qed.

Lemma main_tick_same_reading (cfg : config) (T : target) (E : env)
    (l : locals) (w : world) :
  reading cfg T E (now w) = last_hash l ->
  fst (main_tick cfg T E l w) = l
  /\ run_effect E 2 w (snd (main_tick cfg T E l w)) [Usleep MONITOR_INTERVAL].
Proof.
  intros Hsame.
  pose proof (main_tick_effect cfg T E l w) as Heff.
  rewrite main_tick_result. unfold next_locals.
  rewrite Hsame in *.
  rewrite has_changed_same in *.
  split; [reflexivity | exact Heff].
Qed.

(** C4: an unreadable source and an absent record both read as zero; on a
    tick that reads zero the device sees the poll sleep only (no LED
    write), and the baseline, the activity counter and the LED are left as
    they were; when the following tick reads the baseline again, the two
    ticks together have written nothing to the LED. *)
Theorem zero_reading_is_ignored (cfg : config) (T : target) (E : env)
    (l : locals) (w : world) :
  let current := fst (get_diskstats_hash cfg T E w) in
  let r := main_tick cfg T E l w in
  (diskstats_at E (now w) = None -> current = 0)
  /\ (forall stream,
         diskstats_at E (now w) = Some stream ->
         fst (diskstats_scan cfg T (S (length stream)) stream) = false ->
         current = 0)
  /\ (current = 0 ->
      fst r = l
      /\ device_trace (out (snd r))
         = device_trace (out w) ++ [Usleep MONITOR_INTERVAL]
      /\ led (snd r) = led w
      /\ (let w' := snd (io_step cfg E read_running (snd r)) in
          let r' := main_tick cfg T E (fst r) w' in
          fst (get_diskstats_hash cfg T E w') = last_hash l ->
          fst r' = l
          /\ device_trace (out (snd r'))
             = device_trace (out w)
               ++ [Usleep MONITOR_INTERVAL; Usleep MONITOR_INTERVAL]
          /\ led (snd r') = led w)).
Proof.
  intros current r. subst current r.
  rewrite get_diskstats_hash_result.
  split; [|split].
  - intros Hnone. unfold reading. rewrite Hnone. reflexivity.
  - intros stream Hsome Hnot. unfold reading. rewrite Hsome.
    apply diskstats_scan_not_found. exact Hnot.
  - intros Hzero.
    destruct (main_tick_zero_reading cfg T E l w Hzero)
      as (Hl & Hn & Hr & Hd & Hled).
    split; [exact Hl|]. split; [exact Hd|]. split; [exact Hled|].
    intros w' r'. subst r'. rewrite get_diskstats_hash_result, Hl.
    intros Hsame.
    destruct (main_tick_same_reading cfg T E l w' Hsame)
      as (Hl' & _ & _ & Hd' & Hled').
    destruct (read_running_effect cfg E (snd (main_tick cfg T E l w)))
      as (_ & _ & Hdc & Hledc).
    fold w' in Hdc, Hledc.
    split; [exact Hl'|]. split.
    + rewrite Hd', Hdc, Hd, app_nil_r, <- app_assoc. reflexivity.
    + rewrite Hled', Hledc, Hled. reflexivity.
Qed.

Lemma zero_reading_is_ignored_witness :
  fst tick_outage = baseline_1
  /\ fst tick_recovery = baseline_1
  /\ device_trace (out (snd tick_recovery))
     = [Usleep MONITOR_INTERVAL; Usleep MONITOR_INTERVAL].
Proof.
  unfold tick_recovery, tick_outage.
  destruct (zero_reading_is_ignored sample_cfg x86_64 env_outage baseline_1
              initial_world) as (Hnone & _ & Hzero).
  destruct (Hzero (Hnone eq_refl)) as (Hl & _ & _ & Hnext).
  destruct Hnext as (Hl' & Hd' & _).
  - vm_compute. reflexivity.
  - split; [exact Hl|]. split; [exact Hl' | exact Hd'].
Defined.

(** ** The fuel of the scan *)

Lemma fgets_loop_length (room : nat) :
  forall stream,
    (length (fst (fgets_loop room stream)) + length (snd (fgets_loop room stream))
     = length stream)%nat.
Proof.
  induction room as [|room IH]; intros stream; [reflexivity|].
  destruct stream as [|b rest]; [reflexivity|].
  cbn [fgets_loop]. destruct (Byte.eqb b newline); [reflexivity|].
  specialize (IH rest). destruct (fgets_loop room rest) as [line rest'].
  cbn [fst snd length] in *. lia.
Qed.

Lemma fgets_loop_takes (room : nat) (stream buffer stream' : list byte) :
  room <> O -> stream <> [] ->
  fgets_loop room stream = (buffer, stream') ->
  (length stream' < length stream)%nat.
Proof.
  intros Hroom Hstream Hloop.
  pose proof (fgets_loop_length room stream) as Hlen.
  destruct room as [|room]; [contradiction Hroom; reflexivity|].
  destruct stream as [|b rest]; [contradiction Hstream; reflexivity|].
  assert (Hbuf : buffer <> []).
  { cbn [fgets_loop] in Hloop. destruct (Byte.eqb b newline).
    - injection Hloop as <- _. discriminate.
    - destruct (fgets_loop room rest). injection Hloop as <- _. discriminate. }
  rewrite Hloop in Hlen. cbn [fst snd] in Hlen.
  destruct buffer; [contradiction Hbuf; reflexivity|].
  cbn [length] in *. lia.
Qed.

(** Every successful [fgets] takes at least one byte off the stream. *)
Lemma fgets_shrinks (stream buffer stream' : list byte) :
  fgets MAX_LINE_LENGTH stream = Some (buffer, stream') ->
  (length stream' < length stream)%nat.
Proof.
  unfold fgets. destruct stream as [|b rest]; [discriminate|].
  intros H.
  assert (Hloop : fgets_loop (MAX_LINE_LENGTH - 1) (b :: rest)
                  = (buffer, stream')) by congruence.
  apply (fgets_loop_takes _ _ _ _ (Nat.neq_succ_0 1022)
           (not_eq_sym (@nil_cons _ b rest)) Hloop).
Qed.

(** The fuel given by [get_diskstats_hash] is never used up: any larger
    amount gives the same result, on every stream. *)
Lemma diskstats_scan_fuel (cfg : config) (T : target) (fuel : nat) :
  forall fuel' stream,
    (length stream < fuel)%nat -> (length stream < fuel')%nat ->
    diskstats_scan cfg T fuel stream = diskstats_scan cfg T fuel' stream.
Proof.
  induction fuel as [|fuel IH]; intros fuel' stream Hf Hf'; [lia|].
  destruct fuel' as [|fuel']; [lia|].
  cbn [diskstats_scan].
  destruct (fgets MAX_LINE_LENGTH stream) as [[buffer stream']|] eqn:Hget;
    [|reflexivity].
  destruct (strstr buffer (target_disk cfg)); [reflexivity|].
  apply fgets_shrinks in Hget. apply IH; lia.
Qed.

(** ** The record extractor on a text file *)

Lemma not_in_by_eqb (c : byte) (l : list byte) :
  existsb (Byte.eqb c) l = false -> ~ In c l.
Proof.
  intros Hex Hin.
  assert (Htrue : existsb (Byte.eqb c) l = true).
  { apply existsb_exists. exists c. split; [exact Hin|].
    apply byte_eqb_eq. reflexivity. }
  congruence.
Qed.

(** C5, as stated, fails for a line longer than the 1024-byte buffer: the
    only line of the file contains the key, across the boundary between
    the first 1023 bytes and the rest, and the extractor reports that the
    key was not found. *)
Lemma long_line_key_is_missed :
  ~ (forall (cfg : config) (T : target) (lines : list (list byte)),
        text_lines lines ->
        Forall (fun l => ~ In NUL l) lines ->
        forall l,
          first_containing (cstr (target_disk cfg)) lines l ->
          diskstats_scan cfg T (S (length (concat lines))) (concat lines)
          = (true, hash_string T l)).
Proof.
  intros Hclaim.
  assert (Hscan : diskstats_scan sample_cfg x86_64
                    (S (length (concat [long_line]))) (concat [long_line])
                  = (false, 0)) by (vm_compute; reflexivity).
  rewrite (Hclaim sample_cfg x86_64 [long_line]) with (l := long_line) in Hscan.
  - discriminate Hscan.
  - apply (text_lines_cons (repeat "x"%byte 1022 ++ bytes "sda") []).
    + apply not_in_by_eqb. vm_compute. reflexivity.
    + constructor.
  - constructor; [|constructor].
    apply not_in_by_eqb. vm_compute. reflexivity.
  - exists [], []. split; [reflexivity|]. split; [constructor|].
    exists (repeat "x"%byte 1022), [newline]. vm_compute. reflexivity.
Qed.

(** C5, amended: on a file whose lines are shorter than the 1024-byte
    buffer (newline included) and hold no NUL byte, the extractor, each
    time it is called, scans the content the file has at that instant
    from the top, returns the fingerprint of the first line that contains
    the key as a substring, and reports not-found (zero) exactly when no
    line contains the key. *)
Theorem extractor_returns_first_match (cfg : config) (T : target) (E : env)
    (lines : list (list byte)) (w : world) :
  text_lines lines ->
  Forall (fun l => (length l < MAX_LINE_LENGTH)%nat) lines ->
  Forall (fun l => ~ In NUL l) lines ->
  diskstats_at E (now w) = Some (concat lines) ->
  let key := cstr (target_disk cfg) in
  let scan := diskstats_scan cfg T (S (length (concat lines))) (concat lines) in
  (forall l, first_containing key lines l ->
             scan = (true, hash_string T l)
             /\ fst (get_diskstats_hash cfg T E w) = hash_string T l)
  /\ ((forall l, In l lines -> ~ contains key l) ->
      scan = (false, 0) /\ fst (get_diskstats_hash cfg T E w) = 0)
  /\ (fst scan = false -> forall l, In l lines -> ~ contains key l).
Proof.
  intros Htext Hshort Hnul Hfile key scan.
  assert (Hscan : scan
                  = match find (line_matches (target_disk cfg)) lines with
                    | Some l => (true, hash_string T l)
                    | None => (false, 0)
                    end).
  { apply diskstats_scan_find; [assumption | assumption | lia]. }
  assert (Hread : fst (get_diskstats_hash cfg T E w) = snd scan).
  { rewrite get_diskstats_hash_result. unfold reading. rewrite Hfile.
    reflexivity. }
  assert (Hp : forall l', In l' lines ->
                 (line_matches (target_disk cfg) l' = true <-> contains key l')).
  { intros l' Hin. apply line_matches_spec.
    rewrite Forall_forall in Hnul. apply Hnul. exact Hin. }
  rewrite Hread, Hscan. clear Hread Hscan. split; [|split].
  - intros l Hfirst.
    rewrite (find_first_containing _ key lines l Hp Hfirst).
    split; reflexivity.
  - intros Hnone.
    rewrite (proj2 (find_none_iff _ key lines Hp) Hnone).
    split; reflexivity.
  - destruct (find (line_matches (target_disk cfg)) lines) eqn:Hfind.
    + discriminate.
    + intros _. apply (find_none_iff _ key lines Hp). exact Hfind.
Qed.

Lemma extractor_returns_first_match_witness :
  fst (get_diskstats_hash sample_cfg x86_64 env_steady initial_world)
  = hash_string x86_64 (sda_body_1 ++ [newline]).
Proof.
  assert (Htext : text_lines stats_1).
  { unfold stats_1.
    apply text_lines_cons; [apply not_in_by_eqb; vm_compute; reflexivity|].
    apply text_lines_cons; [apply not_in_by_eqb; vm_compute; reflexivity|].
    constructor. }
  assert (Hshort : Forall (fun l => (length l < MAX_LINE_LENGTH)%nat) stats_1).
  { repeat constructor; apply Nat.ltb_lt; vm_compute; reflexivity. }
  assert (Hnul : Forall (fun l => ~ In NUL l) stats_1).
  { repeat constructor; apply not_in_by_eqb; vm_compute; reflexivity. }
  destruct (extractor_returns_first_match sample_cfg x86_64 env_steady
              stats_1 initial_world Htext Hshort Hnul eq_refl)
    as (Hfirst & _).
  apply Hfirst.
  exists [sdb_body ++ [newline]], []. split; [reflexivity|]. split.
  - constructor; [|constructor].
    intros Hc. apply strstr_from_spec in Hc. apply Hc.
    vm_compute. reflexivity.
  - apply strstr_from_spec. vm_compute. intros Heq. discriminate Heq.
Defined.

(** ** The signal handler *)

(** C9, as stated, fails in verbose mode: the handler prints. *)
Lemma signal_handler_prints_when_verbose :
  ~ (forall (cfg : config) (sig : Z) (w : world),
        out (snd (signal_handler cfg sig w)) = out w).
Proof.
  intros Hclaim.
  specialize (Hclaim sample_cfg 15 initial_world).
  vm_compute in Hclaim. discriminate Hclaim.
Qed.

(** C9, amended: the handler sets [running] to zero and touches neither
    the LED nor the clock; with verbose mode off it does nothing else (no
    output at all); with verbose mode on it also prints one message.  The
    loop reads the flag once per round, at the top. *)
Theorem signal_handler_sets_flag (cfg : config) (sig : Z) (w : world) :
  let w' := snd (signal_handler cfg sig w) in
  running w' = 0
  /\ now w' = now w
  /\ led w' = led w
  /\ device_trace (out w') = device_trace (out w)
  /\ (debug_mode cfg = false -> out w' = out w)
  /\ (debug_mode cfg = true -> out w' = out w ++ [Printf_signal sig])
  /\ (forall (T : target) (E : env) (fuel : nat) (l : locals),
         main_loop cfg T E (S fuel) l w
         = if fst (io_step cfg E read_running w) =? 0
           then (Some l, snd (io_step cfg E read_running w))
           else main_loop cfg T E fuel
                  (fst (main_tick cfg T E l (snd (io_step cfg E read_running w))))
                  (snd (main_tick cfg T E l (snd (io_step cfg E read_running w))))).
Proof.
  intros w'. subst w'. rewrite signal_handler_eq. cbn [snd].
  split; [reflexivity|]. split; [reflexivity|]. split; [reflexivity|].
  split; [apply device_trace_after_signals|].
  unfold after_signals. cbn [out map].
  split; [|split].
  - intros ->. apply app_nil_r.
  - intros ->. reflexivity.
  - intros T E fuel l. apply main_loop_round.
Qed.

Lemma signal_handler_sets_flag_witness :
  running (snd (signal_handler quiet_cfg 15 initial_world)) = 0
  /\ out (snd (signal_handler quiet_cfg 15 initial_world)) = []
  /\ out (snd (signal_handler sample_cfg 15 initial_world)) = [Printf_signal 15].
Proof.
  destruct (signal_handler_sets_flag quiet_cfg 15 initial_world)
    as (Hrun & _ & _ & _ & Hquiet & _).
  destruct (signal_handler_sets_flag sample_cfg 15 initial_world)
    as (_ & _ & _ & _ & _ & Hverbose & _).
  split; [exact Hrun|]. split.
  - apply Hquiet. reflexivity.
  - apply Hverbose. reflexivity.
Defined.

(** ** Failing LED writes *)

(** C6, as stated, fails: [blink_led] returns nothing, so no value given
    to its caller can tell a pulse whose writes failed from one whose
    writes succeeded. *)
Lemma pulse_failure_is_not_reported :
  ~ (exists is_error : unit -> bool,
        forall (cfg : config) (E : env) (w : world),
          is_error (fst (blink_led cfg E w)) = true <->
          (led_at E (now w) <> Write_ok \/ led_at E (now w + 2) <> Write_ok)).
Proof.
  intros [is_error Hclaim].
  pose proof (Hclaim sample_cfg env_led_broken initial_world) as Hbroken.
  pose proof (Hclaim sample_cfg env_changed initial_world) as Hfine.
  destruct (fst (blink_led sample_cfg env_led_broken initial_world)).
  destruct (fst (blink_led sample_cfg env_changed initial_world)).
  assert (Herr : is_error tt = true).
  { apply Hbroken. left. simpl. discriminate. }
  apply Hfine in Herr. simpl in Herr.
  destruct Herr as [Herr|Herr]; apply Herr; reflexivity.
Qed.

Lemma reading_ext (cfg : config) (T : target) (E E' : env) :
  (forall t, diskstats_at E' t = diskstats_at E t) ->
  forall t, reading cfg T E' t = reading cfg T E t.
Proof. intros Hsame t. unfold reading. rewrite Hsame. reflexivity. Qed.

Lemma any_signal_ext (E E' : env) :
  (forall t, signals_at E' t = signals_at E t) ->
  forall k t, any_signal E' t k = any_signal E t k.
Proof.
  intros Hsame k. induction k as [|k IH]; intros t; simpl.
  - reflexivity.
  - rewrite Hsame, IH. reflexivity.
Qed.

(** C6, amended: [set_led_brightness] returns -1 exactly when the
    brightness file cannot be opened, but the pulse hands no error to the
    loop.  Whatever becomes of the LED writes, the tick ends with the same
    locals, at the same instant and with the same [running] flag, so the
    loop goes on as if the writes had succeeded; on a detected change the
    change is counted, the baseline is updated and both writes of the
    pulse are attempted before the poll sleep. *)
Theorem pulse_failure_does_not_stop_the_loop (cfg : config) (T : target)
    (E E' : env) (l : locals) (w : world) :
  (forall t, diskstats_at E' t = diskstats_at E t) ->
  (forall t, signals_at E' t = signals_at E t) ->
  let current := fst (get_diskstats_hash cfg T E w) in
  let r := main_tick cfg T E l w in
  let r' := main_tick cfg T E' l w in
  (forall brightness,
      fst (set_led_brightness cfg E brightness w) = -1 <->
      led_at E (now w) = Open_fails)
  /\ fst r' = fst r
  /\ now (snd r') = now (snd r)
  /\ running (snd r') = running (snd r)
  /\ (has_changed (last_hash l) current = true ->
      last_hash (fst r) = current
      /\ activity_count (fst r) = int_wrap (activity_count l + 1)
      /\ device_trace (out (snd r))
         = device_trace (out w)
           ++ [Led_write 1 (led_at E (now w + 1)); Usleep LED_BLINK_DURATION;
               Led_write 0 (led_at E (now w + 3)); Usleep MONITOR_INTERVAL]).
Proof.
  intros Hstats Hsigs current r r'. subst current r r'.
  rewrite get_diskstats_hash_result, !main_tick_result.
  pose proof (main_tick_effect cfg T E l w) as (Hn & Hr & Hd & _).
  pose proof (main_tick_effect cfg T E' l w) as (Hn' & Hr' & _ & _).
  rewrite (reading_ext cfg T E E' Hstats) in *.
  split; [|split; [|split; [|split]]].
  - intros brightness. rewrite set_led_brightness_result.
    destruct (led_at E (now w)); split; intros H;
      (reflexivity || discriminate H).
  - reflexivity.
  - rewrite Hn, Hn'. reflexivity.
  - rewrite Hr, Hr', (any_signal_ext E E' Hsigs). reflexivity.
  - intros Hc. unfold next_locals. rewrite Hc in *. cbn [last_hash activity_count].
    split; [reflexivity|]. split; [reflexivity|].
    rewrite Hd. unfold pulse. simpl.
    replace (now w + 1 + 2)%nat with (now w + 3)%nat by lia. reflexivity.
Qed.

Lemma pulse_failure_does_not_stop_the_loop_witness :
  fst tick_led_broken = fst tick_changed
  /\ activity_count (fst tick_led_broken) = 1
  /\ fst (set_led_brightness sample_cfg env_led_broken 1 initial_world) = -1.
Proof.
  unfold tick_led_broken, tick_changed.
  destruct (pulse_failure_does_not_stop_the_loop sample_cfg x86_64
              env_changed env_led_broken baseline_1 initial_world
              (fun t => eq_refl) (fun t => eq_refl))
    as (_ & Hsame & _ & _ & Hchange).
  destruct (pulse_failure_does_not_stop_the_loop sample_cfg x86_64
              env_led_broken env_led_broken baseline_1 initial_world
              (fun t => eq_refl) (fun t => eq_refl))
    as (Hret & _ & _ & _ & _).
  destruct Hchange as (_ & Hcount & _); [vm_compute; reflexivity|].
  split; [exact Hsame|]. split.
  - rewrite Hsame, Hcount. reflexivity.
  - apply Hret. reflexivity.
Defined.

(** ** Termination *)

Lemma any_signal_at (E : env) (k : nat) :
  forall t j, (j < k)%nat -> signals_at E (t + j) <> [] ->
              any_signal E t k = true.
Proof.
  induction k as [|k IH]; intros t j Hj Hsig; [lia|].
  simpl. destruct (signals_at E t) eqn:Ht; [|reflexivity].
  destruct j as [|j].
  - rewrite Nat.add_0_r in Hsig. contradiction.
  - apply (IH (S t) j); [lia|].
    replace (S t + j)%nat with (t + S j)%nat by lia. exact Hsig.
Qed.

(** C7: a signal that arrives while a pulse is in progress (after the LED
    was switched on, before it is switched off) does not cut the tick
    short: the hold and the deactivating write follow, then the poll
    sleep; the loop ends at its next test of [running], the LED is off as
    soon as the deactivating write succeeded, and [main] returns 0. *)
Theorem signal_during_pulse_is_deferred (cfg : config) (T : target) (E : env)
    (l : locals) (w : world) (fuel : nat) :
  running w <> 0 ->
  signals_at E (now w) = [] ->
  has_changed (last_hash l) (reading cfg T E (now w + 1)) = true ->
  signals_at E (now w + 3) <> [] \/ signals_at E (now w + 4) <> [] ->
  let r := main_from_loop cfg T E (S (S fuel)) l w in
  fst r = Some 0
  /\ device_trace (out (snd r))
     = device_trace (out w)
       ++ [Led_write 1 (led_at E (now w + 2)); Usleep LED_BLINK_DURATION;
           Led_write 0 (led_at E (now w + 4)); Usleep MONITOR_INTERVAL]
  /\ (led_at E (now w + 4) = Write_ok -> led (snd r) = 0)
  /\ running (snd r) = 0
  /\ now (snd r) = (now w + 7)%nat.
Proof.
  intros Hrun Hquiet Hchange Hsig r. subst r.
  unfold main_from_loop. rewrite bind_eq, main_loop_round.
  (* the test at the top of this round passes *)
  pose proof (read_running_effect cfg E w) as H1.
  rewrite read_running_result.
  set (w1 := snd (io_step cfg E read_running w)) in *.
  assert (Hnone : any_signal E (now w) 1 = false)
    by (simpl; rewrite Hquiet; reflexivity).
  rewrite Hnone. apply Z.eqb_neq in Hrun. rewrite Hrun.
  assert (Hnow1 : now w1 = (now w + 1)%nat) by (destruct H1 as (Hn & _); exact Hn).
  (* the tick runs in full *)
  pose proof (main_tick_effect cfg T E l w1) as H2.
  rewrite main_tick_result. rewrite Hnow1 in *. rewrite Hchange in H2.
  set (w2 := snd (main_tick cfg T E l w1)) in *.
  set (l2 := next_locals l (reading cfg T E (now w + 1))).
  (* the next test sees the flag down *)
  rewrite main_loop_round.
  pose proof (read_running_effect cfg E w2) as H3.
  rewrite read_running_result.
  set (w3 := snd (io_step cfg E read_running w2)) in *.
  assert (Hsome : any_signal E (now w + 1) 5 = true).
  { destruct Hsig as [Hsig|Hsig].
    - apply (any_signal_at E 5 (now w + 1) 2); [lia|].
      replace (now w + 1 + 2)%nat with (now w + 3)%nat by lia. exact Hsig.
    - apply (any_signal_at E 5 (now w + 1) 3); [lia|].
      replace (now w + 1 + 3)%nat with (now w + 4)%nat by lia. exact Hsig. }
  assert (Hdown : running w2 = 0).
  { destruct H2 as (_ & Hr & _). rewrite Hr, Hnow1, Hsome. reflexivity. }
  rewrite Hdown.
  replace (if any_signal E (now w2) 1 then 0 else 0) with 0
    by (destruct (any_signal E (now w2) 1); reflexivity).
  cbn [Z.eqb fst snd].
  rewrite bind_eq. cbn [ret fst snd].
  pose proof (diagnostic_effect E (debug_mode cfg)
                (Printf_shutdown (activity_count l2)) w3 eq_refl) as H4.
  set (w4 := snd (when (debug_mode cfg)
                    (emit (Printf_shutdown (activity_count l2))) w3)) in *.
  pose proof (run_effect_trans E 1 6 _ _ _ _ _ H1
                (run_effect_trans E 5 1 _ _ _ _ _ H2
                   (run_effect_trans E 1 0 _ _ _ _ _ H3 H4)))
    as (Hn & Hr & Hd & Hl).
  split; [reflexivity|].
  assert (Hdevs : [] ++ (pulse E (now w + 1 + 1) ++ [Usleep MONITOR_INTERVAL])
                     ++ [] ++ []
                  = [Led_write 1 (led_at E (now w + 2)); Usleep LED_BLINK_DURATION;
                     Led_write 0 (led_at E (now w + 4)); Usleep MONITOR_INTERVAL]).
  { unfold pulse. simpl.
    replace (now w + 1 + 1)%nat with (now w + 2)%nat by lia.
    replace (now w + 2 + 2)%nat with (now w + 4)%nat by lia.
    reflexivity. }
  rewrite Hdevs in *.
  split; [exact Hd|]. split; [|split].
  - intros Hok. rewrite Hl. unfold led_after. simpl. rewrite Hok. reflexivity.
  - assert (Hr4 : running w4 = running w3) by (destruct H4 as (_ & Hr4 & _); exact Hr4).
    destruct H3 as (_ & Hr3 & _).
    rewrite Hr4, Hr3, Hdown. destruct (any_signal E (now w2) 1); reflexivity.
  - rewrite Hn. reflexivity.
Qed.

Lemma signal_during_pulse_is_deferred_witness :
  fst run_interrupted = Some 0
  /\ device_trace (out (snd run_interrupted))
     = [Led_write 1 Write_ok; Usleep LED_BLINK_DURATION;
        Led_write 0 Write_ok; Usleep MONITOR_INTERVAL]
  /\ led (snd run_interrupted) = 0.
Proof.
  unfold run_interrupted.
  destruct (signal_during_pulse_is_deferred sample_cfg x86_64 env_interrupted
              baseline_1 initial_world 0)
    as (Hret & Hd & Hled & _).
  - simpl. discriminate.
  - reflexivity.
  - vm_compute. reflexivity.
  - left. simpl. discriminate.
  - split; [exact Hret|]. split; [exact Hd|]. apply Hled. reflexivity.
Defined.

(** A whole run of lines 209-234: SIGTERM arrives during the first poll
    sleep; nothing changed on the disk, so the LED is never written. *)
Example main_monitor_interrupted :
  main_monitor sample_cfg x86_64 env_interrupted 2 initial_world
  = (Some 0,
     {| now := 5; running := 0; led := 0;
        out := [Printf_signal 15; Usleep MONITOR_INTERVAL; Printf_shutdown 0] |}).
Proof. vm_compute. reflexivity. Qed.

(* ===================================================================== *)
(** * Part 3: further properties of the code *)
(* ===================================================================== *)

(** ** The fingerprint, continued *)

Lemma ulong_wrap_range (T : target) (z : Z) :
  0 <= ulong_wrap T z < 2 ^ ulong_bits T.
Proof. apply Z.mod_pos_bound. apply ulong_modulus_pos. Qed.

Lemma djb2_fold_range (T : target) (value : byte -> Z) (line : list byte) :
  forall seed,
    0 <= seed < 2 ^ ulong_bits T ->
    0 <= fold_left (fun acc b => ulong_wrap T (acc * 33 + value b)) line seed
      < 2 ^ ulong_bits T.
Proof.
  induction line as [|b line IH]; intros seed Hseed; simpl.
  - exact Hseed.
  - apply IH. apply ulong_wrap_range.
Qed.

Lemma seed_range (T : target) : 0 <= 5381 < 2 ^ ulong_bits T.
Proof. unfold ulong_bits. destruct (model T); simpl; lia. Qed.

Lemma hash_string_range_aux (T : target) (str : list byte) :
  0 <= hash_string T str < 2 ^ ulong_bits T.
Proof.
  unfold hash_string. rewrite hash_string_loop_fold.
  apply djb2_fold_range. apply seed_range.
Qed.

(** X1: the fingerprint of every string is a value of [unsigned long]:
    it lies between 0 and [2 ^ ulong_bits - 1]. *)
Theorem hash_string_range (T : target) (str : list byte) :
  0 <= hash_string T str < 2 ^ ulong_bits T.
Proof.
  unfold hash_string. rewrite hash_string_loop_fold.
  apply djb2_fold_range.
  unfold ulong_bits. destruct (model T); simpl; lia.
Qed.

Lemma cstr_app_nul_free (s rest : list byte) :
  ~ In NUL s -> cstr (s ++ rest) = s ++ cstr rest.
Proof.
  induction s as [|b s IH]; intros Hnul; simpl.
  - reflexivity.
  - destruct (Byte.eqb b NUL) eqn:Hb.
    + apply byte_eqb_eq in Hb. exfalso. apply Hnul. left. exact Hb.
    + f_equal. apply IH. intros Hin. apply Hnul. right. exact Hin.
Qed.

(** X2: the fingerprint is computed incrementally: appending one
    character [b] to a string turns its fingerprint [h] into
    [h * 33 + b] in [unsigned long] arithmetic. *)
Theorem hash_string_snoc (T : target) (str : list byte) (b : byte) :
  ~ In NUL str -> b <> NUL ->
  hash_string T (str ++ [b])
  = ulong_wrap T (hash_string T str * 33 + char_value T b).
Proof.
  intros Hnul Hb. unfold hash_string.
  rewrite !hash_string_loop_fold.
  rewrite cstr_app_nul_free by exact Hnul.
  rewrite (cstr_nul_free str Hnul).
  simpl cstr. apply byte_eqb_neq in Hb. rewrite Hb.
  rewrite fold_left_app. reflexivity.
Qed.

Lemma hash_string_snoc_witness :
  hash_string x86_64 (bytes "sd" ++ [("a"%byte : byte)])
  = ulong_wrap x86_64 (hash_string x86_64 (bytes "sd") * 33 + 97).
Proof.
  apply (hash_string_snoc x86_64 (bytes "sd") "a"%byte).
  - apply not_in_by_eqb. reflexivity.
  - discriminate.
Defined.

Lemma cstr_stops_at_nul (s rest : list byte) :
  cstr (s ++ NUL :: rest) = cstr s.
Proof.
  induction s as [|b s IH]; simpl.
  - reflexivity.
  - destruct (Byte.eqb b NUL); [reflexivity|]. f_equal. exact IH.
Qed.

(** X3: the fingerprint covers the string up to its first NUL only:
    whatever follows a NUL byte in the buffer has no influence. *)
Theorem hash_string_stops_at_nul (T : target) (str rest : list byte) :
  hash_string T (str ++ NUL :: rest) = hash_string T str.
Proof.
  unfold hash_string. rewrite !hash_string_loop_fold.
  rewrite cstr_stops_at_nul. reflexivity.
Qed.

(** ** The record extractor on every file *)

Lemma fgets_loop_split (room : nat) :
  forall stream buffer rest,
    fgets_loop room stream = (buffer, rest) ->
    stream = buffer ++ rest /\ (length buffer <= room)%nat.
Proof.
  induction room as [|room IH]; intros stream buffer rest Hloop.
  - cbn [fgets_loop] in Hloop. injection Hloop as <- <-.
    split; [reflexivity | apply Nat.le_refl].
  - destruct stream as [|b stream]; cbn [fgets_loop] in Hloop.
    + injection Hloop as <- <-. split; [reflexivity | apply Nat.le_0_l].
    + destruct (Byte.eqb b newline).
      * injection Hloop as <- <-. split; [reflexivity | simpl; lia].
      * destruct (fgets_loop room stream) as [line rest'] eqn:Hrec.
        injection Hloop as <- <-.
        destruct (IH stream line rest' Hrec) as [-> Hlen].
        split; [reflexivity | simpl; lia].
Qed.

Lemma fgets_split (stream buffer rest : list byte) :
  fgets MAX_LINE_LENGTH stream = Some (buffer, rest) ->
  stream = buffer ++ rest
  /\ (0 < length buffer <= MAX_LINE_LENGTH - 1)%nat.
Proof.
  intros Hget. pose proof (fgets_shrinks _ _ _ Hget) as Hshrink.
  unfold fgets in Hget. destruct stream as [|b stream]; [discriminate|].
  assert (Hloop : fgets_loop (MAX_LINE_LENGTH - 1) (b :: stream)
                  = (buffer, rest)) by congruence.
  destruct (fgets_loop_split _ _ _ _ Hloop) as [Hcat Hlen].
  split; [exact Hcat|]. split; [|exact Hlen].
  rewrite Hcat, length_app in Hshrink. lia.
Qed.

Lemma fgets_records_partition (fuel : nat) :
  forall stream,
    (length stream < fuel)%nat ->
    concat (fgets_records fuel stream) = stream
    /\ Forall (fun buffer => (0 < length buffer <= MAX_LINE_LENGTH - 1)%nat)
              (fgets_records fuel stream).
Proof.
  induction fuel as [|fuel IH]; intros stream Hfuel; [lia|].
  cbn [fgets_records].
  destruct (fgets MAX_LINE_LENGTH stream) as [[buffer rest]|] eqn:Hget.
  - destruct (fgets_split _ _ _ Hget) as [Hcat Hlen].
    pose proof (fgets_shrinks _ _ _ Hget) as Hshrink.
    destruct (IH rest) as [Hconcat Hall]; [lia|].
    split.
    + cbn [concat]. rewrite Hconcat. symmetry. exact Hcat.
    + constructor; assumption.
  - unfold fgets in Hget. destruct stream; [|discriminate].
    split; [reflexivity | constructor].
Qed.

Lemma diskstats_scan_records (cfg : config) (T : target) (fuel : nat) :
  forall stream,
    diskstats_scan cfg T fuel stream
    = match find (line_matches (target_disk cfg)) (fgets_records fuel stream) with
      | Some buffer => (true, hash_string T buffer)
      | None => (false, 0)
      end.
Proof.
  induction fuel as [|fuel IH]; intros stream; [reflexivity|].
  cbn [diskstats_scan fgets_records].
  destruct (fgets MAX_LINE_LENGTH stream) as [[buffer rest]|]; [|reflexivity].
  cbn [find]. unfold line_matches at 1.
  destruct (strstr buffer (target_disk cfg)); [reflexivity | apply IH].
Qed.

(** X4: on every file, whatever the length of its lines, the extractor
    works record by record: the successive buffers that [fgets] fills
    partition the file into non-empty pieces of at most 1023 bytes, and
    the result is the fingerprint of the first piece in which [strstr]
    finds the key, or not-found with fingerprint 0 when there is none. *)
Theorem extractor_scans_records (cfg : config) (T : target) (stream : list byte) :
  let records := fgets_records (S (length stream)) stream in
  concat records = stream
  /\ Forall (fun buffer => (0 < length buffer <= MAX_LINE_LENGTH - 1)%nat) records
  /\ diskstats_scan cfg T (S (length stream)) stream
     = match find (line_matches (target_disk cfg)) records with
       | Some buffer => (true, hash_string T buffer)
       | None => (false, 0)
       end.
Proof.
  intros records. subst records.
  destruct (fgets_records_partition (S (length stream)) stream) as [Hc Hall];
    [lia|].
  split; [exact Hc|]. split; [exact Hall|].
  apply diskstats_scan_records.
Qed.

Lemma line_matches_empty_key (key buffer : list byte) :
  cstr key = [] -> line_matches key buffer = true.
Proof.
  intros Hkey. unfold line_matches, strstr. rewrite Hkey.
  destruct (cstr buffer); reflexivity.
Qed.

(** X5: an empty disk name matches everything: with an empty
    [target_disk] the extractor returns the fingerprint of the first
    record of any non-empty file; on an empty file it finds nothing and
    returns 0. *)
Theorem empty_key_takes_first_record (cfg : config) (T : target)
    (stream : list byte) :
  cstr (target_disk cfg) = [] ->
  (stream = [] ->
   diskstats_scan cfg T (S (length stream)) stream = (false, 0))
  /\ (forall buffer rest,
         fgets MAX_LINE_LENGTH stream = Some (buffer, rest) ->
         diskstats_scan cfg T (S (length stream)) stream
         = (true, hash_string T buffer)).
Proof.
  intros Hkey. split.
  - intros ->. reflexivity.
  - intros buffer rest Hget.
    rewrite (diskstats_scan_step cfg T (length stream) buffer stream rest Hget).
    rewrite (line_matches_empty_key _ buffer Hkey). reflexivity.
Qed.

Lemma empty_key_takes_first_record_witness :
  diskstats_scan {| target_disk := []; target_led := bytes "led0";
                    debug_mode := false |}
                 x86_64 (S (length (concat stats_1))) (concat stats_1)
  = (true, hash_string x86_64 (sdb_body ++ [newline])).
Proof.
  apply (proj2 (empty_key_takes_first_record
                  {| target_disk := []; target_led := bytes "led0";
                     debug_mode := false |}
                  x86_64 (concat stats_1) eq_refl)
           (sdb_body ++ [newline]) (sda_body_1 ++ [newline])).
  vm_compute. reflexivity.
Defined.

Lemma line_matches_contains (key buffer : list byte) :
  line_matches key buffer = true <-> contains (cstr key) (cstr buffer).
Proof.
  unfold line_matches, strstr. rewrite <- strstr_from_spec.
  destruct (strstr_from (cstr buffer) (cstr key)).
  - split; [discriminate | reflexivity].
  - split; [discriminate | intros H; contradiction H; reflexivity].
Qed.

Lemma contains_trans (a b c : list byte) :
  contains a b -> contains b c -> contains a c.
Proof.
  intros (b1 & b2 & ->) (c1 & c2 & ->).
  exists (c1 ++ b1), (b2 ++ c2). rewrite <- !app_assoc. reflexivity.
Qed.

Lemma scan_found_iff (cfg : config) (T : target) (fuel : nat) (stream : list byte) :
  fst (diskstats_scan cfg T fuel stream) = true <->
  exists buffer, In buffer (fgets_records fuel stream)
                 /\ line_matches (target_disk cfg) buffer = true.
Proof.
  rewrite diskstats_scan_records.
  destruct (find (line_matches (target_disk cfg)) (fgets_records fuel stream))
    as [buffer|] eqn:Hfind.
  - split; [|reflexivity]. intros _. exists buffer.
    apply find_some in Hfind. exact Hfind.
  - split; [discriminate|]. intros (buffer & Hin & Hm).
    pose proof (find_none _ _ Hfind buffer Hin). congruence.
Qed.

(** X6: the match is loose: a disk name that occurs inside another one
    (such as sda inside sda1) matches every buffer the longer name
    matches, so whenever the extractor finds a record for the longer name
    it also finds one for the shorter name. *)
Theorem shorter_key_matches_more (cfg cfg' : config) (T : target)
    (stream : list byte) :
  contains (cstr (target_disk cfg)) (cstr (target_disk cfg')) ->
  (forall buffer,
      line_matches (target_disk cfg') buffer = true ->
      line_matches (target_disk cfg) buffer = true)
  /\ (fst (diskstats_scan cfg' T (S (length stream)) stream) = true ->
      fst (diskstats_scan cfg T (S (length stream)) stream) = true).
Proof.
  intros Hsub.
  assert (Hloose : forall buffer,
             line_matches (target_disk cfg') buffer = true ->
             line_matches (target_disk cfg) buffer = true).
  { intros buffer Hm. apply line_matches_contains.
    apply line_matches_contains in Hm.
    exact (contains_trans _ _ _ Hsub Hm). }
  split; [exact Hloose|].
  rewrite !scan_found_iff. intros (buffer & Hin & Hm).
  exists buffer. split; [exact Hin | apply Hloose; exact Hm].
Qed.

Lemma shorter_key_matches_more_witness :
  line_matches (bytes "sda") (bytes "   8       1 sda1 20 0 160 4") = true.
Proof.
  assert (Hsub : contains (cstr (bytes "sda")) (cstr (bytes "sda1")))
    by (exists [], (bytes "1"); reflexivity).
  apply (proj1 (shorter_key_matches_more
                  sample_cfg
                  {| target_disk := bytes "sda1"; target_led := bytes "led0";
                     debug_mode := true |}
                  x86_64 [] Hsub)).
  reflexivity.
Defined.

(** ** The LED after a pulse *)

(** X7: after a pulse the LED is off when the deactivating write was
    stored; it is left on exactly when the activating write was stored
    and the deactivating one was not; when neither was stored it shows
    what it showed before. *)
Theorem blink_led_final_state (cfg : config) (E : env) (w : world) :
  led (snd (blink_led cfg E w))
  = match led_at E (now w + 2), led_at E (now w) with
    | Write_ok, _ => 0
    | _, Write_ok => 1
    | _, _ => led w
    end.
Proof.
  destruct (blink_led_effect cfg E w) as (_ & _ & _ & Hl).
  rewrite Hl. unfold pulse, led_after. simpl.
  destruct (led_at E (now w + 2)), (led_at E (now w)); reflexivity.
Qed.

(** ** The whole loop *)

Section WholeLoop.

Variable cfg : config.
Variable T : target.
Variable E : env.

Lemma main_tick_trace (l : locals) (w : world) :
  exists k devs,
    run_effect E k w (snd (main_tick cfg T E l w)) devs
    /\ tick_trace E devs /\ (2 <= k <= 5)%nat.
Proof.
  pose proof (main_tick_effect cfg T E l w) as Heff.
  destruct (has_changed (last_hash l) (reading cfg T E (now w))).
  - exists 5%nat, (pulse E (now w + 1) ++ [Usleep MONITOR_INTERVAL]).
    split; [exact Heff|]. split; [constructor | lia].
  - exists 2%nat, [Usleep MONITOR_INTERVAL].
    split; [exact Heff|]. split; [constructor | lia].
Qed.

(** Whatever the fuel, a run of the loop is a sequence of whole ticks. *)
Lemma main_loop_effect (fuel : nat) :
  forall l w,
  exists k devs,
    run_effect E k w (snd (main_loop cfg T E fuel l w)) devs
    /\ ticks_trace E devs.
Proof.
  induction fuel as [|fuel IH]; intros l w.
  - exists 0%nat, []. split; [apply run_effect_refl | constructor].
  - rewrite main_loop_round.
    pose proof (read_running_effect cfg E w) as H1.
    set (w1 := snd (io_step cfg E read_running w)) in *.
    destruct (fst (io_step cfg E read_running w) =? 0).
    + exists 1%nat, []. split; [exact H1 | constructor].
    + destruct (main_tick_trace l w1) as (kt & tdevs & H2 & Htick & _).
      set (w2 := snd (main_tick cfg T E l w1)) in *.
      destruct (IH (fst (main_tick cfg T E l w1)) w2)
        as (k' & devs' & H3 & Hticks).
      exists (1 + (kt + k'))%nat, ([] ++ (tdevs ++ devs')).
      split.
      * exact (run_effect_trans E _ _ _ _ _ _ _ H1
                 (run_effect_trans E _ _ _ _ _ _ _ H2 H3)).
      * simpl. constructor; assumption.
Qed.

(** X8: whatever signals arrive and however the run ends (at the test of
    the flag or for lack of fuel), what the device sees of the loop is a
    sequence of whole ticks: each one is the poll sleep alone, or a
    complete pulse (write 1, hold, write 0) followed by the poll sleep.
    No run ends between the two writes of a pulse. *)
Theorem loop_runs_whole_ticks (fuel : nat) (l : locals) (w : world) :
  exists devs,
    device_trace (out (snd (main_loop cfg T E fuel l w)))
    = device_trace (out w) ++ devs
    /\ ticks_trace E devs.
Proof.
  destruct (main_loop_effect fuel l w) as (k & devs & (_ & _ & Hd & _) & Hticks).
  exists devs. split; assumption.
Qed.

Lemma led_after_app (d1 d2 : list event) (v : Z) :
  led_after (d1 ++ d2) v = led_after d2 (led_after d1 v).
Proof. unfold led_after. apply fold_left_app. Qed.

Lemma led_after_ticks (devs : list event) :
  ticks_trace E devs ->
  forall v,
    (v = 0 \/ v = 1 -> led_after devs v = 0 \/ led_after devs v = 1)
    /\ ((forall t, led_at E t = Write_ok) -> v = 0 -> led_after devs v = 0).
Proof.
  induction 1 as [|tick rest Htick _ IH]; intros v.
  - split; [intros H; exact H | intros _ H; exact H].
  - rewrite led_after_app.
    assert (Hone : (v = 0 \/ v = 1 ->
                    led_after tick v = 0 \/ led_after tick v = 1)
                   /\ ((forall t, led_at E t = Write_ok) -> v = 0 ->
                       led_after tick v = 0)).
    { destruct Htick as [|t].
      - split; [intros H; exact H | intros _ H; exact H].
      - unfold pulse, led_after. simpl. split.
        + intros Hv.
          destruct (led_at E (t + 2)), (led_at E t); auto.
        + intros Hok _. rewrite (Hok (t + 2)%nat). reflexivity. }
    destruct Hone as [Hbit Hoff].
    destruct (IH (led_after tick v)) as [IHbit IHoff].
    split.
    + intros Hv. apply IHbit. apply Hbit. exact Hv.
    + intros Hok Hv. apply IHoff; [exact Hok|]. apply Hoff; assumption.
Qed.

(** X9: the loop only ever drives the LED to 0 or 1; and when every write
    to the LED is stored, a LED that is off when the loop starts is off
    again at the end of every run of the loop. *)
Theorem loop_leaves_led_off (fuel : nat) (l : locals) (w : world) :
  (led w = 0 \/ led w = 1 ->
   led (snd (main_loop cfg T E fuel l w)) = 0
   \/ led (snd (main_loop cfg T E fuel l w)) = 1)
  /\ ((forall t, led_at E t = Write_ok) -> led w = 0 ->
      led (snd (main_loop cfg T E fuel l w)) = 0).
Proof.
  destruct (main_loop_effect fuel l w) as (k & devs & (_ & _ & _ & Hl) & Hticks).
  rewrite Hl. apply led_after_ticks. exact Hticks.
Qed.

End WholeLoop.

Lemma loop_leaves_led_off_witness :
  led (snd (main_loop sample_cfg x86_64 env_changed 3 baseline_1 initial_world))
  = 0.
Proof.
  apply (proj2 (loop_leaves_led_off sample_cfg x86_64 env_changed 3
                  baseline_1 initial_world)).
  - intros t. reflexivity.
  - reflexivity.
Defined.

(** ** The baseline, the flag and the end of the loop *)

Section Shutdown.

Variable cfg : config.
Variable T : target.
Variable E : env.

Lemma next_locals_last_hash (l : locals) (current : Z) :
  last_hash (next_locals l current)
  = if current =? 0 then last_hash l else current.
Proof.
  unfold next_locals, has_changed.
  destruct (current =? last_hash l) eqn:Hsame, (current =? 0) eqn:Hzero;
    simpl; try reflexivity.
  apply Z.eqb_eq in Hsame. symmetry. exact Hsame.
Qed.

Lemma main_loop_baseline (fuel : nat) :
  forall l w l',
    last_hash l <> 0 ->
    fst (main_loop cfg T E fuel l w) = Some l' ->
    last_hash l' <> 0.
Proof.
  induction fuel as [|fuel IH]; intros l w l' Hnz Hret.
  - discriminate Hret.
  - rewrite main_loop_round in Hret.
    destruct (fst (io_step cfg E read_running w) =? 0).
    + injection Hret as <-. exact Hnz.
    + apply IH in Hret; [exact Hret|].
      rewrite main_tick_result, next_locals_last_hash.
      destruct (reading cfg T E (now (snd (io_step cfg E read_running w))) =? 0)
        eqn:Hz; [exact Hnz|].
      apply Z.eqb_neq. exact Hz.
Qed.

(** X10: after a tick the baseline is the reading of that tick, unless
    the reading is zero, in which case the baseline is kept: the baseline
    is the most recent non-zero reading.  Hence a baseline that is not
    zero never falls back to zero, over the whole loop. *)
Theorem baseline_is_last_nonzero_reading (l : locals) (w : world) :
  let current := fst (get_diskstats_hash cfg T E w) in
  last_hash (fst (main_tick cfg T E l w))
  = (if current =? 0 then last_hash l else current)
  /\ (forall fuel l',
         last_hash l <> 0 ->
         fst (main_loop cfg T E fuel l w) = Some l' ->
         last_hash l' <> 0).
Proof.
  intros current. subst current. split.
  - rewrite get_diskstats_hash_result, main_tick_result.
    apply next_locals_last_hash.
  - intros fuel l'. apply main_loop_baseline.
Qed.

(** X11: once the flag is down the loop does nothing more: at its next
    test it ends without reading the statistics, writing the LED or
    sleeping, and [main] returns 0. *)
Theorem flag_down_ends_loop (fuel : nat) (l : locals) (w : world) :
  running w = 0 ->
  fst (main_loop cfg T E (S fuel) l w) = Some l
  /\ fst (main_from_loop cfg T E (S fuel) l w) = Some 0
  /\ device_trace (out (snd (main_from_loop cfg T E (S fuel) l w)))
     = device_trace (out w)
  /\ led (snd (main_from_loop cfg T E (S fuel) l w)) = led w
  /\ now (snd (main_from_loop cfg T E (S fuel) l w)) = S (now w).
Proof.
  intros Hdown.
  assert (Hloop : main_loop cfg T E (S fuel) l w
                  = (Some l, snd (io_step cfg E read_running w))).
  { rewrite main_loop_round, read_running_result, Hdown.
    destruct (any_signal E (now w) 1); reflexivity. }
  unfold main_from_loop. rewrite bind_eq, Hloop. cbn [fst snd].
  rewrite bind_eq. cbn [ret fst snd].
  destruct (read_running_effect cfg E w) as (Hn & _ & Hd & Hl).
  destruct (diagnostic_effect E (debug_mode cfg)
              (Printf_shutdown (activity_count l))
              (snd (io_step cfg E read_running w)) eq_refl)
    as (Hn' & _ & Hd' & Hl').
  split; [reflexivity|]. split; [reflexivity|].
  split; [|split].
  - rewrite Hd', Hd, !app_nil_r. reflexivity.
  - rewrite Hl', Hl. reflexivity.
  - rewrite Hn', Hn. lia.
Qed.

Lemma main_loop_terminates (t : nat) :
  signals_at E t <> [] ->
  forall n fuel l w,
    running w = 0 \/ ((now w <= t)%nat /\ (t - now w < n)%nat) ->
    (n < fuel)%nat ->
    exists l', fst (main_loop cfg T E fuel l w) = Some l'.
Proof.
  intros Hsig. induction n as [|n IH]; intros fuel l w Hcase Hfuel.
  - destruct fuel as [|fuel]; [lia|].
    destruct Hcase as [Hdown|[_ Hlt]]; [|lia].
    exists l. rewrite main_loop_round, read_running_result, Hdown.
    destruct (any_signal E (now w) 1); reflexivity.
  - destruct fuel as [|fuel]; [lia|].
    rewrite main_loop_round, read_running_result.
    pose proof (read_running_effect cfg E w) as (Hn1 & Hr1 & _).
    set (w1 := snd (io_step cfg E read_running w)) in *.
    destruct ((if any_signal E (now w) 1 then 0 else running w) =? 0) eqn:Htest.
    + exists l. reflexivity.
    + destruct (main_tick_trace cfg T E l w1) as (kt & devs & Heff & _ & Hkt).
      destruct Heff as (Hn2 & Hr2 & _).
      set (w2 := snd (main_tick cfg T E l w1)) in *.
      apply IH; [|lia].
      destruct Hcase as [Hdown|[Hle Hlt]].
      * rewrite Hdown in Htest.
        destruct (any_signal E (now w) 1); discriminate Htest.
      * destruct (any_signal E (now w) 1) eqn:Hnow; [discriminate Htest|].
        destruct (Nat.le_gt_cases (now w2) t) as [Hlater|Hpassed].
        -- right. split; [exact Hlater | lia].
        -- left. rewrite Hr2.
           assert (Hin : any_signal E (now w1) kt = true).
           { assert (Hnot : t <> now w).
             { intros ->. simpl in Hnow.
               destruct (signals_at E (now w)); [contradiction Hsig; reflexivity|].
               discriminate Hnow. }
             apply (any_signal_at E kt (now w1) (t - now w1)); [lia|].
             replace (now w1 + (t - now w1))%nat with t by lia. exact Hsig. }
           rewrite Hin. reflexivity.
Qed.

(** X12: the loop ends after any signal: if a signal arrives at some
    instant from the current one on, then with enough fuel the loop is
    left and [main] returns 0, whatever the statistics and the LED do. *)
Theorem signal_ends_main (t : nat) (fuel : nat) (l : locals) (w : world) :
  (now w <= t)%nat ->
  signals_at E t <> [] ->
  (t - now w + 2 <= fuel)%nat ->
  fst (main_from_loop cfg T E fuel l w) = Some 0.
Proof.
  intros Hle Hsig Hfuel.
  destruct (main_loop_terminates t Hsig (t - now w + 1) fuel l w) as [l' Hret];
    [right; split; lia | lia |].
  unfold main_from_loop. rewrite bind_eq, Hret, bind_eq. reflexivity.
Qed.

Lemma any_signal_never (k : nat) :
  (forall t, signals_at E t = []) -> forall t, any_signal E t k = false.
Proof.
  intros Hnone. induction k as [|k IH]; intros t; simpl.
  - reflexivity.
  - rewrite Hnone. apply IH.
Qed.

(** X13: nothing but a signal ends the loop: when no signal ever arrives,
    a loop that is running is still running after any number of rounds,
    whether the statistics are readable or not and whether the LED
    writes succeed or not. *)
Theorem loop_runs_until_signal (fuel : nat) (l : locals) (w : world) :
  (forall t, signals_at E t = []) ->
  running w <> 0 ->
  fst (main_loop cfg T E fuel l w) = None
  /\ fst (main_from_loop cfg T E fuel l w) = None.
Proof.
  intros Hnone.
  assert (Hloop : forall fuel l w, running w <> 0 ->
                    fst (main_loop cfg T E fuel l w) = None).
  { clear fuel l w. induction fuel as [|fuel IH]; intros l w Hrun.
    - reflexivity.
    - rewrite main_loop_round, read_running_result.
      rewrite (any_signal_never 1 Hnone).
      pose proof (read_running_effect cfg E w) as (_ & Hr1 & _).
      rewrite (any_signal_never 1 Hnone) in Hr1.
      set (w1 := snd (io_step cfg E read_running w)) in *.
      apply Z.eqb_neq in Hrun. rewrite Hrun. apply Z.eqb_neq in Hrun.
      apply IH.
      destruct (main_tick_trace cfg T E l w1) as (kt & devs & Heff & _).
      destruct Heff as (_ & Hr2 & _).
      rewrite Hr2, (any_signal_never kt Hnone), Hr1. exact Hrun. }
  intros Hrun. split; [apply Hloop; exact Hrun|].
  unfold main_from_loop. rewrite bind_eq, (Hloop fuel l w Hrun).
  reflexivity.
Qed.

End Shutdown.

Lemma flag_down_ends_loop_witness :
  fst (main_from_loop sample_cfg x86_64 env_changed 1 baseline_1
         {| now := 7; running := 0; led := 0; out := [] |}) = Some 0.
Proof.
  apply (flag_down_ends_loop sample_cfg x86_64 env_changed 0 baseline_1
           {| now := 7; running := 0; led := 0; out := [] |}).
  reflexivity.
Defined.

Lemma signal_ends_main_witness :
  fst (main_from_loop sample_cfg x86_64 env_interrupted 5 baseline_1
         initial_world) = Some 0.
Proof.
  apply (signal_ends_main sample_cfg x86_64 env_interrupted 3 5 baseline_1
           initial_world).
  - simpl. lia.
  - simpl. discriminate.
  - simpl. lia.
Defined.

Lemma loop_runs_until_signal_witness :
  fst (main_loop sample_cfg x86_64 env_changed 4 baseline_1 initial_world)
  = None.
Proof.
  apply (loop_runs_until_signal sample_cfg x86_64 env_changed 4 baseline_1
           initial_world).
  - intros t. reflexivity.
  - simpl. discriminate.
Defined.

Lemma baseline_is_last_nonzero_reading_witness :
  hash_string x86_64 (sda_body_2 ++ [newline]) <> 0.
Proof.
  apply (proj2 (baseline_is_last_nonzero_reading sample_cfg x86_64
                  env_interrupted baseline_1 initial_world)
           3%nat
           {| last_hash := hash_string x86_64 (sda_body_2 ++ [newline]);
              activity_count := 1 |}).
  - vm_compute. discriminate.
  - vm_compute. reflexivity.
Defined.

(** ** The activity counter *)

Lemma pulses_in_app (evs1 evs2 : list event) :
  pulses_in (evs1 ++ evs2) = pulses_in evs1 + pulses_in evs2.
Proof.
  induction evs1 as [|e evs1 IH]; simpl.
  - reflexivity.
  - destruct e; rewrite IH; lia.
Qed.

Lemma pulses_in_device_trace (evs : list event) :
  pulses_in (device_trace evs) = pulses_in evs.
Proof.
  induction evs as [|e evs IH]; simpl.
  - reflexivity.
  - destruct e; simpl; rewrite ?IH; reflexivity.
Qed.

Lemma pulses_in_run (E : env) (k : nat) (w w' : world) (devs : list event) :
  run_effect E k w w' devs ->
  pulses_in (out w') = pulses_in (out w) + pulses_in devs.
Proof.
  intros (_ & _ & Hd & _).
  rewrite <- (pulses_in_device_trace (out w')), Hd, pulses_in_app.
  rewrite pulses_in_device_trace. reflexivity.
Qed.

Lemma int_wrap_range (z : Z) : INT_MIN <= int_wrap z <= INT_MAX.
Proof.
  unfold int_wrap, INT_MIN, INT_MAX.
  change (2 ^ 31) with 2147483648. change (2 ^ 32) with 4294967296.
  pose proof (Z.mod_pos_bound (z + 2147483648) 4294967296). lia.
Qed.

Lemma int_wrap_small (z : Z) : INT_MIN <= z <= INT_MAX -> int_wrap z = z.
Proof.
  unfold int_wrap, INT_MIN, INT_MAX. intros H.
  change (2 ^ 31) with 2147483648. change (2 ^ 32) with 4294967296.
  rewrite Z.mod_small by lia. lia.
Qed.

Lemma int_wrap_add (a b : Z) : int_wrap (int_wrap a + b) = int_wrap (a + b).
Proof.
  unfold int_wrap.
  change (2 ^ 31) with 2147483648. change (2 ^ 32) with 4294967296.
  f_equal.
  replace ((a + 2147483648) mod 4294967296 - 2147483648 + b + 2147483648)
    with ((a + 2147483648) mod 4294967296 + b) by lia.
  rewrite Z.add_mod_idemp_l by lia. f_equal. lia.
Qed.

Section Counter.

Variable cfg : config.
Variable T : target.
Variable E : env.

Lemma main_tick_count (l : locals) (w : world) :
  INT_MIN <= activity_count l <= INT_MAX ->
  INT_MIN <= activity_count (fst (main_tick cfg T E l w)) <= INT_MAX
  /\ activity_count (fst (main_tick cfg T E l w))
     = int_wrap (activity_count l
                 + (pulses_in (out (snd (main_tick cfg T E l w)))
                    - pulses_in (out w))).
Proof.
  intros Hrange.
  rewrite (pulses_in_run E _ _ _ _ (main_tick_effect cfg T E l w)).
  rewrite main_tick_result. unfold next_locals.
  destruct (has_changed (last_hash l) (reading cfg T E (now w))).
  - cbn [activity_count]. split; [apply int_wrap_range|].
    f_equal. rewrite pulses_in_app. unfold pulse. simpl. lia.
  - split; [exact Hrange|]. simpl.
    replace (activity_count l + (pulses_in (out w) + 0 - pulses_in (out w)))
      with (activity_count l) by lia.
    symmetry. apply int_wrap_small. exact Hrange.
Qed.

Lemma main_loop_count (fuel : nat) :
  forall l w l',
    INT_MIN <= activity_count l <= INT_MAX ->
    fst (main_loop cfg T E fuel l w) = Some l' ->
    activity_count l'
    = int_wrap (activity_count l
                + (pulses_in (out (snd (main_loop cfg T E fuel l w)))
                   - pulses_in (out w))).
Proof.
  induction fuel as [|fuel IH]; intros l w l' Hrange Hret.
  - discriminate Hret.
  - rewrite main_loop_round in *.
    pose proof (pulses_in_run E _ _ _ _ (read_running_effect cfg E w)) as Hp1.
    set (w1 := snd (io_step cfg E read_running w)) in *.
    destruct (fst (io_step cfg E read_running w) =? 0).
    + injection Hret as <-. cbn [snd]. rewrite Hp1. simpl.
      replace (activity_count l + (pulses_in (out w) + 0 - pulses_in (out w)))
        with (activity_count l) by lia.
      symmetry. apply int_wrap_small. exact Hrange.
    + destruct (main_tick_count l w1 Hrange) as [Hrange2 Hcount2].
      rewrite (IH _ _ l' Hrange2 Hret), Hcount2, int_wrap_add.
      f_equal. simpl in Hp1. lia.
Qed.

(** X14: the activity counter counts the pulses: when the loop ends, the
    counter has grown by the number of activating writes made meanwhile
    (in [int] arithmetic), and the total that verbose mode prints at
    shutdown is the number of pulses of the whole run. *)
Theorem counter_counts_pulses (fuel : nat) (l : locals) (w : world) :
  INT_MIN <= activity_count l <= INT_MAX ->
  (forall l',
      fst (main_loop cfg T E fuel l w) = Some l' ->
      activity_count l'
      = int_wrap (activity_count l
                  + (pulses_in (out (snd (main_loop cfg T E fuel l w)))
                     - pulses_in (out w))))
  /\ (debug_mode cfg = true ->
      fst (main_monitor cfg T E fuel w) = Some 0 ->
      exists evs,
        out (snd (main_monitor cfg T E fuel w))
        = evs ++ [Printf_shutdown
                    (int_wrap (pulses_in (out (snd (main_monitor cfg T E fuel w)))
                               - pulses_in (out w)))]).
Proof.
  intros Hrange. split.
  - intros l'. apply main_loop_count. exact Hrange.
  - intros Hdebug. unfold main_monitor, main_from_loop.
    rewrite !bind_eq.
    pose proof (pulses_in_run E _ _ _ _ (get_diskstats_hash_effect cfg T E w))
      as Hp0.
    set (w0 := snd (get_diskstats_hash cfg T E w)) in *.
    set (l0 := {| last_hash := fst (get_diskstats_hash cfg T E w);
                  activity_count := 0 |}).
    pose proof (main_loop_count fuel l0 w0) as Hcount.
    destruct (fst (main_loop cfg T E fuel l0 w0)) as [l'|]; [|discriminate].
    intros _. rewrite bind_eq, Hdebug. cbn [when emit ret fst snd out].
    exists (out (snd (main_loop cfg T E fuel l0 w0))).
    do 2 f_equal.
    rewrite (Hcount l') by (unfold INT_MIN, INT_MAX; simpl; (lia || reflexivity)).
    rewrite pulses_in_app. simpl in *.
    apply (f_equal Printf_shutdown). apply (f_equal int_wrap). lia.
Qed.

End Counter.

Lemma counter_counts_pulses_witness :
  exists evs,
    out (snd (main_monitor sample_cfg x86_64 env_interrupted 3 initial_world))
    = evs ++ [Printf_shutdown
                (int_wrap
                   (pulses_in
                      (out (snd (main_monitor sample_cfg x86_64 env_interrupted
                                   3 initial_world)))
                    - pulses_in (out initial_world)))].
Proof.
  apply (proj2 (counter_counts_pulses sample_cfg x86_64 env_interrupted 3
                  baseline_1 initial_world
                  ltac:(unfold INT_MIN, INT_MAX, baseline_1; simpl; lia))).
  - reflexivity.
  - vm_compute. reflexivity.
Defined.

(** ** Quiet mode *)

Lemma quiet_ret {A : Type} (a : A) : quiet (ret a).
Proof. intros w. exists []. simpl. rewrite app_nil_r. auto. Qed.

Lemma quiet_bind {A B : Type} (m : M A) (k : A -> M B) :
  quiet m -> (forall a, quiet (k a)) -> quiet (bind m k).
Proof.
  intros Hm Hk w. rewrite bind_eq.
  destruct (Hm w) as (d1 & Ho1 & Hd1).
  destruct (Hk (fst (m w)) (snd (m w))) as (d2 & Ho2 & Hd2).
  exists (d1 ++ d2). split.
  - rewrite Ho2, Ho1, app_assoc. reflexivity.
  - rewrite device_trace_app, Hd1, Hd2. reflexivity.
Qed.

Lemma quiet_emit (e : event) : device_trace [e] = [e] -> quiet (emit e).
Proof. intros He w. exists [e]. simpl. auto. Qed.

Lemma quiet_silent {A : Type} (m : M A) :
  (forall w, out (snd (m w)) = out w) -> quiet m.
Proof.
  intros Hsame w. exists []. rewrite Hsame, app_nil_r. auto.
Qed.

Section Quiet.

Variable cfg : config.
Variable T : target.
Variable E : env.
Hypothesis Hquiet : debug_mode cfg = false.

Lemma quiet_io_step {A : Type} (action : M A) :
  quiet action -> quiet (io_step cfg E action).
Proof.
  intros Haction w. rewrite io_step_eq. cbn [snd advance out].
  destruct (Haction (after_signals cfg (signals_at E (now w)) w))
    as (devs & Ho & Hd).
  exists devs. split; [|exact Hd].
  rewrite Ho. unfold after_signals. cbn [out]. rewrite Hquiet, app_nil_r.
  reflexivity.
Qed.

Lemma quiet_get_diskstats_hash : quiet (get_diskstats_hash cfg T E).
Proof.
  unfold get_diskstats_hash. apply quiet_io_step.
  apply quiet_bind; [apply quiet_silent; reflexivity|].
  intros [stream|].
  - destruct (diskstats_scan cfg T (S (length stream)) stream) as [found hash].
    rewrite Hquiet, andb_false_r.
    apply quiet_bind; [apply quiet_ret | intros _; apply quiet_ret].
  - rewrite Hquiet.
    apply quiet_bind; [apply quiet_ret | intros _; apply quiet_ret].
Qed.

Lemma quiet_set_led_brightness (brightness : Z) :
  quiet (set_led_brightness cfg E brightness).
Proof.
  unfold set_led_brightness. apply quiet_io_step.
  apply quiet_bind; [apply quiet_silent; reflexivity|].
  intros outcome.
  apply quiet_bind; [apply quiet_emit; reflexivity|].
  intros _. destruct outcome.
  - rewrite Hquiet.
    apply quiet_bind; [apply quiet_ret | intros _; apply quiet_ret].
  - apply quiet_ret.
  - apply quiet_bind; [apply quiet_silent; reflexivity | intros _; apply quiet_ret].
Qed.

Lemma quiet_usleep (usec : Z) : quiet (usleep cfg E usec).
Proof.
  unfold usleep. apply quiet_io_step. apply quiet_emit. reflexivity.
Qed.

Lemma quiet_blink_led : quiet (blink_led cfg E).
Proof.
  unfold blink_led.
  apply quiet_bind; [apply quiet_set_led_brightness|]. intros _.
  apply quiet_bind; [apply quiet_usleep|]. intros _.
  apply quiet_bind; [apply quiet_set_led_brightness|]. intros _.
  apply quiet_ret.
Qed.

Lemma quiet_main_tick (l : locals) : quiet (main_tick cfg T E l).
Proof.
  unfold main_tick.
  apply quiet_bind; [apply quiet_get_diskstats_hash|]. intros current.
  apply quiet_bind.
  - destruct (has_changed (last_hash l) current); [|apply quiet_ret].
    rewrite Hquiet.
    apply quiet_bind; [apply quiet_ret|]. intros _.
    apply quiet_bind; [apply quiet_blink_led|]. intros _.
    apply quiet_ret.
  - intros l'.
    apply quiet_bind; [apply quiet_usleep | intros _; apply quiet_ret].
Qed.

Lemma quiet_main_loop (fuel : nat) :
  forall l, quiet (main_loop cfg T E fuel l).
Proof.
  induction fuel as [|fuel IH]; intros l.
  - apply quiet_ret.
  - cbn [main_loop].
    apply quiet_bind;
      [apply quiet_io_step; apply quiet_silent; reflexivity|].
    intros r. destruct (r =? 0); [apply quiet_ret|].
    apply quiet_bind; [apply quiet_main_tick | apply IH].
Qed.

Lemma quiet_main_monitor (fuel : nat) : quiet (main_monitor cfg T E fuel).
Proof.
  unfold main_monitor, main_from_loop.
  apply quiet_bind; [apply quiet_get_diskstats_hash|]. intros last.
  apply quiet_bind; [apply quiet_main_loop|].
  intros [l'|]; [|apply quiet_ret].
  rewrite Hquiet.
  apply quiet_bind; [apply quiet_ret | intros _; apply quiet_ret].
Qed.

End Quiet.

(** X15: without [-v] the program is silent: in a whole run of the
    monitor, interrupted or not, with readable statistics or not, with a
    working LED or not, it outputs nothing but its writes to the LED and
    its sleeps: no message is printed, by the loop or by the signal
    handler. *)
Theorem quiet_mode_prints_nothing (cfg : config) (T : target) (E : env)
    (fuel : nat) (w : world) :
  debug_mode cfg = false ->
  exists devs,
    out (snd (main_monitor cfg T E fuel w)) = out w ++ devs
    /\ device_trace devs = devs.
Proof.
  intros Hquiet. apply (quiet_main_monitor cfg T E Hquiet fuel w).
Qed.

Lemma quiet_mode_prints_nothing_witness :
  exists devs,
    out (snd (main_monitor quiet_cfg x86_64 env_interrupted 3 initial_world))
    = out initial_world ++ devs
    /\ device_trace devs = devs.
Proof.
  apply (quiet_mode_prints_nothing quiet_cfg x86_64 env_interrupted 3
           initial_world).
  reflexivity.
Defined.

(** ** The command line *)

Lemma option_accepted_cases (opt : Z) :
  option_accepted opt = true ->
  opt = opt_d \/ opt = opt_l \/ opt = opt_v.
Proof.
  unfold option_accepted. rewrite !orb_true_iff, !Z.eqb_eq. tauto.
Qed.

Lemma parse_options_accepted (returns : list (Z * list byte)) :
  forallb (fun r => option_accepted (fst r)) returns = true ->
  forall g,
    parse_options returns g
    = inl {| g_target_disk := last_optarg opt_d returns (g_target_disk g);
             g_target_led := last_optarg opt_l returns (g_target_led g);
             g_debug_mode :=
               g_debug_mode g || existsb (fun r => fst r =? opt_v) returns |}.
Proof.
  induction returns as [|[opt optarg] returns IH]; intros Hall g.
  - simpl. rewrite orb_false_r. destruct g; reflexivity.
  - cbn [forallb fst] in Hall. apply andb_true_iff in Hall.
    destruct Hall as [Hopt Hrest].
    cbn [parse_options last_optarg existsb fst].
    destruct (option_accepted_cases opt Hopt) as [-> | [-> | ->]];
      cbn; rewrite (IH Hrest); cbn; rewrite ?orb_true_r; reflexivity.
Qed.

Lemma parse_options_rejected (accepted : list (Z * list byte)) :
  forallb (fun r => option_accepted (fst r)) accepted = true ->
  forall opt optarg rest g,
    option_accepted opt = false ->
    parse_options (accepted ++ (opt, optarg) :: rest) g
    = inr (if opt =? opt_h then 0 else 1).
Proof.
  induction accepted as [|[c a] accepted IH]; intros Hall opt optarg rest g Hrej.
  - cbn [app parse_options].
    unfold option_accepted in Hrej. rewrite !orb_false_iff in Hrej.
    destruct Hrej as [[-> ->] ->]. destruct (opt =? opt_h); reflexivity.
  - cbn [forallb fst] in Hall. apply andb_true_iff in Hall.
    destruct Hall as [Hc Hrest].
    cbn [app parse_options].
    destruct (option_accepted_cases c Hc) as [-> | [-> | ->]];
      cbn; apply (IH Hrest); exact Hrej.
Qed.

(** X16: the option loop reads the command line from left to right until
    the first value of [getopt] that is not d, l or v: there it returns
    0 for h and 1 for anything else, without looking at what follows;
    when all values are accepted, each name is the argument of the last
    option of its kind (NULL if there is none) and verbose mode is on
    exactly when v occurs. *)
Theorem parse_options_spec (returns : list (Z * list byte)) :
  (forallb (fun r => option_accepted (fst r)) returns = true ->
   parse_options returns initial_globals
   = inl {| g_target_disk := last_optarg opt_d returns None;
            g_target_led := last_optarg opt_l returns None;
            g_debug_mode := existsb (fun r => fst r =? opt_v) returns |})
  /\ (forall accepted opt optarg rest,
         returns = accepted ++ (opt, optarg) :: rest ->
         forallb (fun r => option_accepted (fst r)) accepted = true ->
         option_accepted opt = false ->
         parse_options returns initial_globals
         = inr (if opt =? opt_h then 0 else 1)).
Proof.
  split.
  - intros Hall. apply (parse_options_accepted returns Hall initial_globals).
  - intros accepted opt optarg rest -> Hall Hrej.
    apply parse_options_rejected; assumption.
Qed.

Lemma parse_options_spec_witness :
  parse_options sample_returns initial_globals
  = inl {| g_target_disk := Some (bytes "sda");
           g_target_led := Some (bytes "led0");
           g_debug_mode := true |}
  /\ parse_options ((opt_d, bytes "sda") :: (opt_h, []) :: sample_returns)
                   initial_globals
     = inr 0.
Proof.
  split.
  - apply (proj1 (parse_options_spec sample_returns)). reflexivity.
  - apply (proj2 (parse_options_spec
                    ((opt_d, bytes "sda") :: (opt_h, []) :: sample_returns))
             [(opt_d, bytes "sda")] opt_h [] sample_returns);
      reflexivity.
Defined.

(** ** The checks made before the loop *)

Section Checks.

Variable cfg : config.
Variable E : env.
Variable SE : startup_env.

Lemma check_led_exists_result (w : world) :
  fst (check_led_exists cfg E SE w)
  = if readable_at SE (now w) (led_brightness_path 256 (target_led cfg))
    then 1 else 0.
Proof. unfold check_led_exists. rewrite io_step_eq. reflexivity. Qed.

Lemma check_led_exists_effect (w : world) :
  run_effect E 1 w (snd (check_led_exists cfg E SE w)) [].
Proof.
  unfold check_led_exists. apply io_step_effect. intros w0 _.
  cbn [snd]. rewrite app_nil_r. auto.
Qed.

Lemma check_disk_exists_result (w : world) :
  fst (check_disk_exists cfg E w) = disk_listed cfg E (now w).
Proof.
  unfold check_disk_exists, disk_listed. rewrite io_step_eq. cbn [fst].
  rewrite bind_eq. unfold fopen_diskstats. cbn [fst snd now after_signals].
  destruct (diskstats_at E (now w)); reflexivity.
Qed.

Lemma check_disk_exists_effect (w : world) :
  run_effect E 1 w (snd (check_disk_exists cfg E w)) [].
Proof.
  unfold check_disk_exists. apply io_step_effect. intros w0 _.
  rewrite bind_eq. unfold fopen_diskstats. cbn [fst snd].
  destruct (diskstats_at E (now w0)); cbn [ret snd];
    rewrite app_nil_r; auto.
Qed.

Lemma access_diskstats_result (w : world) :
  fst (access_diskstats cfg E SE w) = if access_at SE (now w) then 0 else -1.
Proof. unfold access_diskstats. rewrite io_step_eq. reflexivity. Qed.

Lemma access_diskstats_effect (w : world) :
  run_effect E 1 w (snd (access_diskstats cfg E SE w)) [].
Proof.
  unfold access_diskstats. apply io_step_effect. intros w0 _.
  cbn [snd]. rewrite app_nil_r. auto.
Qed.

End Checks.

Lemma check_disk_scan_found (cfg : config) (T : target) (fuel : nat) :
  forall stream,
    check_disk_scan cfg fuel stream
    = if fst (diskstats_scan cfg T fuel stream) then 1 else 0.
Proof.
  induction fuel as [|fuel IH]; intros stream; [reflexivity|].
  cbn [check_disk_scan diskstats_scan].
  destruct (fgets MAX_LINE_LENGTH stream) as [[buffer rest]|]; [|reflexivity].
  destruct (strstr buffer (target_disk cfg)); [reflexivity | apply IH].
Qed.

(** X17: the startup check and the extractor agree: [check_disk_exists]
    returns 1 exactly when the scan of [get_diskstats_hash] finds a
    record in the same content; so when the check succeeds and the file
    has the same content at a later call of [get_diskstats_hash], that
    call returns the fingerprint of a record that matches the disk
    name. *)
Theorem check_disk_exists_agrees (cfg : config) (T : target) (E : env)
    (w w' : world) :
  fst (check_disk_exists cfg E w)
  = match diskstats_at E (now w) with
    | None => 0
    | Some stream =>
        if fst (diskstats_scan cfg T (S (length stream)) stream) then 1 else 0
    end
  /\ (fst (check_disk_exists cfg E w) = 1 ->
      diskstats_at E (now w') = diskstats_at E (now w) ->
      exists stream buffer,
        diskstats_at E (now w') = Some stream
        /\ In buffer (fgets_records (S (length stream)) stream)
        /\ line_matches (target_disk cfg) buffer = true
        /\ fst (get_diskstats_hash cfg T E w') = hash_string T buffer).
Proof.
  rewrite check_disk_exists_result. unfold disk_listed. split.
  - destruct (diskstats_at E (now w)); [|reflexivity].
    apply check_disk_scan_found.
  - intros Hfound Hsame. rewrite get_diskstats_hash_result.
    unfold reading. rewrite Hsame.
    destruct (diskstats_at E (now w)) as [stream|]; [|discriminate Hfound].
    rewrite (check_disk_scan_found cfg T) in Hfound.
    rewrite diskstats_scan_records in *.
    destruct (find (line_matches (target_disk cfg))
                (fgets_records (S (length stream)) stream))
      as [buffer|] eqn:Hfind; [|discriminate Hfound].
    apply find_some in Hfind. destruct Hfind as [Hin Hm].
    exists stream, buffer. auto.
Qed.

Lemma check_disk_exists_agrees_witness :
  exists stream buffer,
    diskstats_at env_steady (now (snd tick_outage)) = Some stream
    /\ In buffer (fgets_records (S (length stream)) stream)
    /\ line_matches (target_disk sample_cfg) buffer = true
    /\ fst (get_diskstats_hash sample_cfg x86_64 env_steady (snd tick_outage))
       = hash_string x86_64 buffer.
Proof.
  apply (proj2 (check_disk_exists_agrees sample_cfg x86_64 env_steady
                  initial_world (snd tick_outage))).
  - vm_compute. reflexivity.
  - reflexivity.
Defined.

(** ** The whole of [main] *)

Lemma say_messages (m : main_message) (p : process) :
  map snd (plog (say m p)) = map snd (plog p) ++ [m].
Proof. unfold say. cbn [plog]. rewrite map_app. reflexivity. Qed.

Lemma main_monitor_status (cfg : config) (T : target) (E : env) (fuel : nat)
    (w : world) (status : Z) :
  fst (main_monitor cfg T E fuel w) = Some status -> status = 0.
Proof.
  unfold main_monitor, main_from_loop. rewrite !bind_eq.
  destruct (fst (main_loop cfg T E fuel _ _)).
  - rewrite bind_eq. cbn [ret fst]. intros H. injection H as <-. reflexivity.
  - discriminate.
Qed.

Section Main.

Variable T : target.
Variable E : env.
Variable SE : startup_env.
Variable fuel : nat.
Variable led0 : Z.
Variable argv0 : list byte.
Variable returns : list (Z * list byte).
Variable cfg : config.

Hypothesis Hparse : parse_options returns initial_globals = inl (globals_of cfg).

Lemma startup_worlds :
  run_effect E 1 (world_at_start led0) (world_after_led_check cfg E SE led0) []
  /\ run_effect E 2 (world_at_start led0)
                 (world_after_disk_check cfg E SE led0) []
  /\ run_effect E 3 (world_at_start led0) (world_after_checks cfg E SE led0) [].
Proof.
  unfold world_after_checks, world_after_disk_check, world_after_led_check.
  set (w0 := world_at_start led0).
  pose proof (check_led_exists_effect cfg E SE w0) as H1.
  set (w1 := snd (check_led_exists cfg E SE w0)) in *.
  pose proof (check_disk_exists_effect cfg E w1) as H2.
  set (w2 := snd (check_disk_exists cfg E w1)) in *.
  pose proof (access_diskstats_effect cfg E SE w2) as H3.
  split; [exact H1|].
  pose proof (run_effect_trans E 1 1 _ _ _ _ _ H1 H2) as H12.
  split; [exact H12|].
  exact (run_effect_trans E 2 1 _ _ _ _ _ H12 H3).
Qed.

(** The four ways in which the startup ends. *)
Lemma main_startup_cases :
  let r := main T E SE fuel led0 argv0 returns in
  let led_ok := readable_at SE 0 (led_brightness_path 256 (target_led cfg)) in
  (led_ok = false ->
   fst r = Some 1 /\ pworld (snd r) = world_after_led_check cfg E SE led0
   /\ map snd (plog (snd r)) = banner (debug_mode cfg) ++ [Error_led])
  /\ (led_ok = true -> disk_listed cfg E 1 = 0 ->
      fst r = Some 1 /\ pworld (snd r) = world_after_disk_check cfg E SE led0
      /\ map snd (plog (snd r)) = banner (debug_mode cfg) ++ [Error_disk])
  /\ (led_ok = true -> disk_listed cfg E 1 <> 0 -> access_at SE 2 = false ->
      fst r = Some 1 /\ pworld (snd r) = world_after_checks cfg E SE led0
      /\ map snd (plog (snd r)) = banner (debug_mode cfg) ++ [Perror_access])
  /\ (led_ok = true -> disk_listed cfg E 1 <> 0 -> access_at SE 2 = true ->
      fst r = fst (main_monitor cfg T E fuel (world_after_checks cfg E SE led0))
      /\ pworld (snd r)
         = snd (main_monitor cfg T E fuel (world_after_checks cfg E SE led0))
      /\ map snd (plog (snd r))
         = banner (debug_mode cfg) ++ starting (debug_mode cfg)).
Proof.
  intros r led_ok. subst r led_ok.
  destruct startup_worlds as ((Hn1 & _) & (Hn2 & _) & _).
  revert Hn1 Hn2.
  unfold world_after_checks, world_after_disk_check, world_after_led_check.
  unfold main. rewrite Hparse. clear Hparse.
  destruct cfg as [disk led_name debug].
  cbn [globals_of g_target_disk g_target_led g_debug_mode
       target_disk target_led debug_mode].
  set (c := {| target_disk := disk; target_led := led_name;
               debug_mode := debug |}).
  change {| now := O; running := 1; led := led0; out := [] |}
    with (world_at_start led0).
  set (w0 := world_at_start led0).
  pose proof (check_led_exists_result c E SE w0) as Hled.
  set (w1 := snd (check_led_exists c E SE w0)) in *.
  pose proof (check_disk_exists_result c E w1) as Hdisk.
  set (w2 := snd (check_disk_exists c E w1)) in *.
  pose proof (access_diskstats_result c E SE w2) as Hacc.
  set (w3 := snd (access_diskstats c E SE w2)) in *.
  intros Hn1 Hn2.
  rewrite Hn1 in Hdisk. rewrite Hn2 in Hacc.
  cbn [now w0 world_at_start target_led c Nat.add] in Hled, Hdisk, Hacc.
  set (p0 := if debug
             then say Printf_controlling
                    (say Printf_monitoring
                       (say Printf_title {| pworld := w0; plog := [] |}))
             else {| pworld := w0; plog := [] |}).
  assert (Hp0w : pworld p0 = w0) by (subst p0; destruct debug; reflexivity).
  assert (Hp0m : map snd (plog p0) = banner debug)
    by (subst p0; destruct debug; reflexivity).
  unfold run. cbn [fst snd pworld plog]. rewrite Hp0w.
  fold w1. rewrite Hled.
  split; [|split; [|split]].
  - intros Hno. rewrite Hno. cbn [Z.eqb fst snd].
    rewrite say_messages. cbn [plog pworld say]. rewrite Hp0m. auto.
  - intros Hyes Hnone. rewrite Hyes. cbn [Z.eqb].
    fold w2. rewrite Hdisk, Hnone. cbn [Z.eqb fst snd].
    rewrite say_messages. cbn [plog pworld say]. rewrite Hp0m. auto.
  - intros Hyes Hsome Hno. rewrite Hyes. cbn [Z.eqb].
    fold w2. rewrite Hdisk. apply Z.eqb_neq in Hsome. rewrite Hsome.
    fold w3. rewrite Hacc, Hno. cbn [Z.eqb negb fst snd].
    rewrite say_messages. cbn [plog pworld say]. rewrite Hp0m. auto.
  - intros Hyes Hsome Hok. rewrite Hyes. cbn [Z.eqb].
    fold w2. rewrite Hdisk. apply Z.eqb_neq in Hsome. rewrite Hsome.
    fold w3. rewrite Hacc, Hok. cbn [Z.eqb negb].
    destruct debug; cbn [fst snd pworld plog say];
      (split; [reflexivity|]); (split; [reflexivity|]).
    + rewrite !map_app, Hp0m. reflexivity.
    + rewrite Hp0m. reflexivity.
Qed.

End Main.

(** X18: the startup is decided by three checks made in this order: the
    brightness file of the LED can be opened for reading, some record of
    the statistics matches the disk name, the statistics are accessible.
    The first check that fails makes [main] print its error and return
    1, whatever the later checks would have given; when all three pass,
    [main] is the monitor started three instants later, and returns what
    the monitor returns. *)
Theorem startup_checks_in_order (T : target) (E : env) (SE : startup_env)
    (fuel : nat) (led0 : Z) (argv0 : list byte)
    (returns : list (Z * list byte)) (cfg : config) :
  parse_options returns initial_globals = inl (globals_of cfg) ->
  let r := main T E SE fuel led0 argv0 returns in
  let led_ok := readable_at SE 0 (led_brightness_path 256 (target_led cfg)) in
  (led_ok = false ->
   fst r = Some 1 /\ pworld (snd r) = world_after_led_check cfg E SE led0
   /\ map snd (plog (snd r)) = banner (debug_mode cfg) ++ [Error_led])
  /\ (led_ok = true -> disk_listed cfg E 1 = 0 ->
      fst r = Some 1 /\ pworld (snd r) = world_after_disk_check cfg E SE led0
      /\ map snd (plog (snd r)) = banner (debug_mode cfg) ++ [Error_disk])
  /\ (led_ok = true -> disk_listed cfg E 1 <> 0 -> access_at SE 2 = false ->
      fst r = Some 1 /\ pworld (snd r) = world_after_checks cfg E SE led0
      /\ map snd (plog (snd r)) = banner (debug_mode cfg) ++ [Perror_access])
  /\ (led_ok = true -> disk_listed cfg E 1 <> 0 -> access_at SE 2 = true ->
      fst r = fst (main_monitor cfg T E fuel (world_after_checks cfg E SE led0))
      /\ pworld (snd r)
         = snd (main_monitor cfg T E fuel (world_after_checks cfg E SE led0))
      /\ map snd (plog (snd r))
         = banner (debug_mode cfg) ++ starting (debug_mode cfg)).
Proof.
  intros Hparse.
  exact (main_startup_cases T E SE fuel led0 argv0 returns cfg Hparse).
Qed.

Lemma startup_checks_in_order_witness :
  fst (main x86_64 env_interrupted startup_no_led 5 0 (bytes "monitor")
         sample_returns) = Some 1
  /\ map snd (plog (snd (main x86_64 env_interrupted startup_no_led 5 0
                           (bytes "monitor") sample_returns)))
     = [Printf_title; Printf_monitoring; Printf_controlling; Error_led].
Proof.
  destruct (startup_checks_in_order x86_64 env_interrupted startup_no_led 5 0
              (bytes "monitor") sample_returns sample_cfg eq_refl)
    as (Hled & _).
  destruct (Hled eq_refl) as (Hstatus & _ & Hlog).
  split; [exact Hstatus | exact Hlog].
Defined.

Lemma parse_options_status (returns : list (Z * list byte)) :
  forall g status,
    parse_options returns g = inr status -> status = 0 \/ status = 1.
Proof.
  induction returns as [|[opt optarg] returns IH]; intros g status.
  - discriminate.
  - cbn [parse_options].
    destruct (opt =? opt_d); [apply IH|].
    destruct (opt =? opt_l); [apply IH|].
    destruct (opt =? opt_v); [apply IH|].
    destruct (opt =? opt_h); intros H; injection H as <-; auto.
Qed.

Lemma untouched (E : env) (k : nat) (led0 : Z) (w : world) :
  run_effect E k (world_at_start led0) w [] ->
  device_trace (out w) = [] /\ led w = led0.
Proof. intros (_ & _ & Hd & Hl). split; [exact Hd | exact Hl]. Qed.

(** X19: [main] returns 0 or 1, and it returns 1 only from its startup:
    whenever it returns 1, the LED was never written, nothing was slept,
    and the LED shows what it showed when the program started. *)
Theorem main_failure_touches_nothing (T : target) (E : env) (SE : startup_env)
    (fuel : nat) (led0 : Z) (argv0 : list byte)
    (returns : list (Z * list byte)) (status : Z) :
  fst (main T E SE fuel led0 argv0 returns) = Some status ->
  (status = 0 \/ status = 1)
  /\ (status = 1 ->
      device_trace (out (pworld (snd (main T E SE fuel led0 argv0 returns)))) = []
      /\ led (pworld (snd (main T E SE fuel led0 argv0 returns))) = led0).
Proof.
  destruct (parse_options returns initial_globals) as [g|code] eqn:Hparse.
  - destruct g as [[disk|] [led_name|] debug].
    + pose proof (main_startup_cases T E SE fuel led0 argv0 returns
                    {| target_disk := disk; target_led := led_name;
                       debug_mode := debug |} Hparse)
        as (Hled & Hdisk & Hacc & Hrun).
      destruct (startup_worlds E SE led0
                  {| target_disk := disk; target_led := led_name;
                     debug_mode := debug |})
        as (H1 & H2 & H3).
      cbn [target_led] in *.
      destruct (readable_at SE 0 (led_brightness_path 256 led_name)).
      * destruct (Z.eq_dec (disk_listed
                              {| target_disk := disk; target_led := led_name;
                                 debug_mode := debug |} E 1) 0)
          as [Hnone|Hsome].
        -- destruct (Hdisk eq_refl Hnone) as (Hs & Hw & _).
           rewrite Hs, Hw. intros H. injection H as <-.
           split; [auto|]. intros _. exact (untouched E 2 led0 _ H2).
        -- destruct (access_at SE 2).
           ++ destruct (Hrun eq_refl Hsome eq_refl) as (Hs & _).
              rewrite Hs. intros Hret.
              apply main_monitor_status in Hret. subst status.
              split; [auto | discriminate].
           ++ destruct (Hacc eq_refl Hsome eq_refl) as (Hs & Hw & _).
              rewrite Hs, Hw. intros H. injection H as <-.
              split; [auto|]. intros _. exact (untouched E 3 led0 _ H3).
      * destruct (Hled eq_refl) as (Hs & Hw & _).
        rewrite Hs, Hw. intros H. injection H as <-.
        split; [auto|]. intros _. exact (untouched E 1 led0 _ H1).
    + unfold main. rewrite Hparse. cbn. intros H. injection H as <-.
      split; [auto|]. intros _. split; reflexivity.
    + unfold main. rewrite Hparse. cbn. intros H. injection H as <-.
      split; [auto|]. intros _. split; reflexivity.
    + unfold main. rewrite Hparse. cbn. intros H. injection H as <-.
      split; [auto|]. intros _. split; reflexivity.
  - unfold main. rewrite Hparse. cbn. intros H. injection H as <-.
    split; [exact (parse_options_status _ _ _ Hparse)|].
    intros _. split; reflexivity.
Qed.

Lemma main_failure_touches_nothing_witness :
  device_trace
    (out (pworld (snd (main x86_64 env_interrupted startup_no_led 5 1
                         (bytes "monitor") sample_returns)))) = []
  /\ led (pworld (snd (main x86_64 env_interrupted startup_no_led 5 1
                         (bytes "monitor") sample_returns))) = 1.
Proof.
  apply (main_failure_touches_nothing x86_64 env_interrupted startup_no_led 5 1
           (bytes "monitor") sample_returns 1).
  - vm_compute. reflexivity.
  - reflexivity.
Defined.

Lemma main_from_loop_exit (cfg : config) (T : target) (E : env) (fuel : nat)
    (l : locals) (w : world) :
  running w = 0 \/ signals_at E (now w) <> [] ->
  fst (main_from_loop cfg T E (S fuel) l w) = Some 0
  /\ device_trace (out (snd (main_from_loop cfg T E (S fuel) l w)))
     = device_trace (out w)
  /\ led (snd (main_from_loop cfg T E (S fuel) l w)) = led w.
Proof.
  intros Hexit.
  assert (Hloop : main_loop cfg T E (S fuel) l w
                  = (Some l, snd (io_step cfg E read_running w))).
  { rewrite main_loop_round, read_running_result.
    destruct Hexit as [Hdown|Hsig].
    - rewrite Hdown. destruct (any_signal E (now w) 1); reflexivity.
    - rewrite (any_signal_at E 1 (now w) 0); [reflexivity | lia |].
      rewrite Nat.add_0_r. exact Hsig. }
  unfold main_from_loop. rewrite bind_eq, Hloop. cbn [fst snd].
  rewrite bind_eq. cbn [ret fst snd].
  destruct (read_running_effect cfg E w) as (_ & _ & Hd & Hl).
  destruct (diagnostic_effect E (debug_mode cfg)
              (Printf_shutdown (activity_count l))
              (snd (io_step cfg E read_running w)) eq_refl)
    as (_ & _ & Hd' & Hl').
  split; [reflexivity|]. split.
  - rewrite Hd', Hd, !app_nil_r. reflexivity.
  - rewrite Hl', Hl. reflexivity.
Qed.

(** X20: a signal that arrives during the startup, once the handlers are
    installed, is not lost: if the three checks pass and a signal arrives
    before the first test of the loop, [main] goes through the checks and
    the first reading, runs no tick at all, never writes the LED and
    returns 0. *)
Theorem signal_during_startup (T : target) (E : env) (SE : startup_env)
    (fuel : nat) (led0 : Z) (argv0 : list byte)
    (returns : list (Z * list byte)) (cfg : config) (t : nat) :
  parse_options returns initial_globals = inl (globals_of cfg) ->
  readable_at SE 0 (led_brightness_path 256 (target_led cfg)) = true ->
  disk_listed cfg E 1 <> 0 ->
  access_at SE 2 = true ->
  (t <= 4)%nat -> signals_at E t <> [] ->
  let r := main T E SE (S fuel) led0 argv0 returns in
  fst r = Some 0
  /\ device_trace (out (pworld (snd r))) = []
  /\ led (pworld (snd r)) = led0.
Proof.
  intros Hparse Hled Hdisk Hacc Ht Hsig r. subst r.
  destruct (main_startup_cases T E SE (S fuel) led0 argv0 returns cfg Hparse)
    as (_ & _ & _ & Hrun).
  destruct (Hrun Hled Hdisk Hacc) as (Hs & Hw & _).
  rewrite Hs, Hw. clear Hs Hw Hrun.
  destruct (startup_worlds E SE led0 cfg) as (_ & _ & H3).
  set (w3 := world_after_checks cfg E SE led0) in *.
  unfold main_monitor. rewrite bind_eq.
  pose proof (get_diskstats_hash_effect cfg T E w3) as H4.
  set (w4 := snd (get_diskstats_hash cfg T E w3)) in *.
  pose proof (run_effect_trans E 3 1 _ _ _ _ _ H3 H4) as (Hn & Hr & Hd & Hl).
  cbn [now world_at_start running Nat.add app] in Hn, Hr.
  destruct (main_from_loop_exit cfg T E fuel
              {| last_hash := fst (get_diskstats_hash cfg T E w3);
                 activity_count := 0 |} w4) as (Hret & Hd' & Hl').
  { destruct (Nat.eq_dec t 4) as [->|Hearlier].
    - right. rewrite Hn. exact Hsig.
    - left. rewrite Hr.
      rewrite (any_signal_at E 4 0 t); [reflexivity | lia | exact Hsig]. }
  split; [exact Hret|]. split.
  - rewrite Hd', Hd. reflexivity.
  - rewrite Hl', Hl. reflexivity.
Qed.

Lemma signal_during_startup_witness :
  fst (main x86_64 env_interrupted startup_fine 1 0 (bytes "monitor")
         sample_returns) = Some 0
  /\ device_trace
       (out (pworld (snd (main x86_64 env_interrupted startup_fine 1 0
                            (bytes "monitor") sample_returns)))) = []
  /\ led (pworld (snd (main x86_64 env_interrupted startup_fine 1 0
                         (bytes "monitor") sample_returns))) = 0.
Proof.
  apply (signal_during_startup x86_64 env_interrupted startup_fine 0 0
           (bytes "monitor") sample_returns sample_cfg 3).
  - reflexivity.
  - reflexivity.
  - vm_compute. discriminate.
  - reflexivity.
  - lia.
  - simpl. discriminate.
Defined.

(** ** The path of the brightness file *)

Lemma led_path_lengths :
  length led_path_prefix = 16%nat /\ length led_path_suffix = 11%nat.
Proof. split; reflexivity. Qed.

(** X21: the path of the brightness file never exceeds the 255 bytes that
    the buffer can hold; it is the full path of the LED for names of at
    most 228 bytes; for names of 239 bytes or more it is cut inside the
    name, so that it does not end in /brightness and two names with the
    same first 239 bytes give the same path. *)
Theorem led_brightness_path_bounds (name : list byte) :
  (length (led_brightness_path 256 name) <= 255)%nat
  /\ ((length (cstr name) <= 228)%nat ->
      led_brightness_path 256 name
      = led_path_prefix ++ cstr name ++ led_path_suffix)
  /\ ((239 <= length (cstr name))%nat ->
      led_brightness_path 256 name
      = led_path_prefix ++ firstn 239 (cstr name)).
Proof.
  destruct led_path_lengths as [Hpre Hsuf].
  unfold led_brightness_path. change (256 - 1)%nat with 255%nat.
  split; [apply firstn_le_length|]. split.
  - intros Hshort. apply firstn_all2.
    rewrite !length_app, Hpre, Hsuf. lia.
  - intros Hlong.
    rewrite firstn_app, Hpre.
    rewrite (firstn_all2 led_path_prefix) by (rewrite Hpre; lia).
    f_equal. change (255 - 16)%nat with 239%nat.
    rewrite firstn_app.
    replace (239 - length (cstr name))%nat with 0%nat by lia.
    rewrite firstn_O. apply app_nil_r.
Qed.

Lemma led_brightness_path_bounds_witness :
  led_brightness_path 256 (bytes "input0::capslock")
  = bytes "/sys/class/leds/input0::capslock/brightness".
Proof.
  apply (proj1 (proj2 (led_brightness_path_bounds (bytes "input0::capslock")))).
  vm_compute. lia.
Defined.

(** ** The zero fingerprint *)

Lemma base33_digits_range (n : nat) :
  forall v, 0 <= v < 33 ^ Z.of_nat n ->
            Forall (fun d => 0 <= d < 33) (base33_digits n v)
            /\ length (base33_digits n v) = n.
Proof.
  induction n as [|n IH]; intros v Hv.
  - split; [constructor | reflexivity].
  - cbn [base33_digits length].
    rewrite Nat2Z.inj_succ, Z.pow_succ_r in Hv by lia.
    assert (Hpow : 0 < 33 ^ Z.of_nat n) by (apply Z.pow_pos_nonneg; lia).
    destruct (IH (v mod 33 ^ Z.of_nat n)) as [Hall Hlen];
      [apply Z.mod_pos_bound; exact Hpow|].
    split; [|rewrite Hlen; reflexivity].
    constructor; [|exact Hall]. split.
    + apply Z.div_pos; lia.
    + apply Z.div_lt_upper_bound; lia.
Qed.

Lemma base33_digits_sum (n : nat) :
  forall v a,
    0 <= v < 33 ^ Z.of_nat n ->
    fold_left (fun acc d => acc * 33 + (d + 48)) (base33_digits n v) a
    = a * 33 ^ Z.of_nat n + v + digits_offset n.
Proof.
  induction n as [|n IH]; intros v a Hv.
  - simpl in *. lia.
  - cbn [base33_digits fold_left digits_offset].
    assert (Hpow : 0 < 33 ^ Z.of_nat n) by (apply Z.pow_pos_nonneg; lia).
    rewrite IH by (apply Z.mod_pos_bound; exact Hpow).
    rewrite Nat2Z.inj_succ, Z.pow_succ_r by lia.
    pose proof (Z.div_mod v (33 ^ Z.of_nat n)) as Hdm.
    nia.
Qed.

Lemma byte_of_digit_value (d : Z) :
  0 <= d < 33 -> byte_unsigned (byte_of_digit d) = d + 48.
Proof.
  intros Hd. unfold byte_of_digit, byte_unsigned.
  destruct (Byte.of_N (Z.to_N (d + 48))) as [b|] eqn:Hof.
  - apply Byte.to_of_N in Hof. rewrite Hof. lia.
  - apply Byte.of_N_None_iff in Hof. lia.
Qed.

Lemma wrapped_fold (T : target) (f : byte -> Z) (s : list byte) :
  forall a,
    fold_left (fun acc b => ulong_wrap T (acc * 33 + f b)) s (ulong_wrap T a)
    = ulong_wrap T (fold_left (fun acc b => acc * 33 + f b) s a).
Proof.
  pose proof (ulong_modulus_pos T) as Hm.
  induction s as [|b s IH]; intros a; cbn [fold_left].
  - reflexivity.
  - rewrite <- IH. f_equal. unfold ulong_wrap.
    rewrite <- Z.add_mod_idemp_l by lia.
    rewrite Z.mul_mod_idemp_l by lia.
    rewrite Z.add_mod_idemp_l by lia. reflexivity.
Qed.

Lemma fold_digits_as_bytes (ds : list Z) :
  Forall (fun d => 0 <= d < 33) ds ->
  forall a,
    fold_left (fun acc b => acc * 33 + byte_unsigned b) (map byte_of_digit ds) a
    = fold_left (fun acc d => acc * 33 + (d + 48)) ds a.
Proof.
  induction 1 as [|d ds Hd _ IH]; intros a; cbn [map fold_left].
  - reflexivity.
  - rewrite byte_of_digit_value by exact Hd. apply IH.
Qed.

Lemma fold_ext_in {A : Type} (f g : Z -> A -> Z) (s : list A) :
  (forall a x, In x s -> f a x = g a x) ->
  forall a, fold_left f s a = fold_left g s a.
Proof.
  induction s as [|x s IH]; intros Hext a; cbn [fold_left].
  - reflexivity.
  - rewrite Hext by (left; reflexivity).
    apply IH. intros a' x' Hin. apply Hext. right. exact Hin.
Qed.

Lemma zero_suffix_digits (T : target) (h : Z) :
  0 <= (- (h * 33 ^ 13 + digits_offset 13)) mod 2 ^ ulong_bits T
    < 33 ^ Z.of_nat 13.
Proof.
  pose proof (Z.mod_pos_bound (- (h * 33 ^ 13 + digits_offset 13))
                (2 ^ ulong_bits T) (ulong_modulus_pos T)) as Hb.
  assert (Hle : 2 ^ ulong_bits T <= 33 ^ Z.of_nat 13).
  { unfold ulong_bits. destruct (model T); vm_compute; discriminate. }
  lia.
Qed.

Lemma zero_suffix_bytes (T : target) (h : Z) :
  length (zero_suffix T h) = 13%nat
  /\ Forall (fun b => 48 <= byte_unsigned b <= 80) (zero_suffix T h).
Proof.
  unfold zero_suffix.
  destruct (base33_digits_range 13 _ (zero_suffix_digits T h)) as [Hall Hlen].
  split; [rewrite length_map; exact Hlen|].
  apply Forall_map. apply Forall_impl with (2 := Hall).
  intros d Hd. rewrite byte_of_digit_value by exact Hd. lia.
Qed.

Lemma printable_not_in (c : byte) (s : list byte) :
  byte_unsigned c < 48 ->
  Forall (fun b => 48 <= byte_unsigned b <= 80) s -> ~ In c s.
Proof.
  intros Hc Hall Hin. rewrite Forall_forall in Hall.
  specialize (Hall c Hin). lia.
Qed.

Lemma not_in_app (c : byte) (s1 s2 : list byte) :
  ~ In c s1 -> ~ In c s2 -> ~ In c (s1 ++ s2).
Proof.
  intros H1 H2 Hin. apply in_app_or in Hin. tauto.
Qed.

Lemma hash_string_zero_suffix (T : target) (prefix : list byte) :
  ~ In NUL prefix ->
  hash_string T (prefix ++ zero_suffix T (hash_string T prefix)) = 0.
Proof.
  intros Hnul.
  set (h := hash_string T prefix).
  destruct (zero_suffix_bytes T h) as [_ Hbytes].
  assert (Hsnul : ~ In NUL (zero_suffix T h))
    by (apply printable_not_in; [reflexivity | exact Hbytes]).
  unfold hash_string. rewrite hash_string_loop_fold.
  rewrite (cstr_nul_free _ (not_in_app _ _ _ Hnul Hsnul)).
  rewrite fold_left_app.
  replace (fold_left (fun acc b => ulong_wrap T (acc * 33 + char_value T b))
             prefix 5381) with h
    by (subst h; unfold hash_string; rewrite hash_string_loop_fold,
          (cstr_nul_free _ Hnul); reflexivity).
  rewrite (fold_ext_in _ (fun acc b => ulong_wrap T (acc * 33 + byte_unsigned b))).
  2:{ intros a b Hin. rewrite char_value_ascii; [reflexivity|].
      right. rewrite Forall_forall in Hbytes. specialize (Hbytes b Hin). lia. }
  assert (Hh : h = ulong_wrap T h).
  { unfold ulong_wrap. symmetry. apply Z.mod_small.
    subst h. apply hash_string_range_aux. }
  remember (zero_suffix T h) as suffix eqn:Hsuffix.
  rewrite Hh, wrapped_fold. subst suffix.
  unfold zero_suffix.
  rewrite fold_digits_as_bytes
    by (apply (base33_digits_range 13); apply zero_suffix_digits).
  rewrite base33_digits_sum by apply zero_suffix_digits.
  unfold ulong_wrap. pose proof (ulong_modulus_pos T) as Hm.
  change (Z.of_nat 13) with 13.
  replace (h * 33 ^ 13
           + (- (h * 33 ^ 13 + digits_offset 13)) mod 2 ^ ulong_bits T
           + digits_offset 13)
    with ((- (h * 33 ^ 13 + digits_offset 13)) mod 2 ^ ulong_bits T
          + (h * 33 ^ 13 + digits_offset 13)) by lia.
  rewrite Z.add_mod_idemp_l by lia.
  replace (- (h * 33 ^ 13 + digits_offset 13) + (h * 33 ^ 13 + digits_offset 13))
    with 0 by lia.
  apply Z.mod_0_l. lia.
Qed.

(** X22: zero is a fingerprint like any other: every string without NUL
    can be completed by thirteen printable characters (between 0 and P in
    the ASCII table) to a string whose fingerprint is zero, on every
    target. *)
Theorem zero_fingerprint_reachable (T : target) (prefix : list byte) :
  ~ In NUL prefix ->
  length (zero_suffix T (hash_string T prefix)) = 13%nat
  /\ Forall (fun b => 48 <= byte_unsigned b <= 80)
            (zero_suffix T (hash_string T prefix))
  /\ hash_string T (prefix ++ zero_suffix T (hash_string T prefix)) = 0.
Proof.
  intros Hnul.
  destruct (zero_suffix_bytes T (hash_string T prefix)) as [Hlen Hbytes].
  split; [exact Hlen|]. split; [exact Hbytes|].
  apply hash_string_zero_suffix. exact Hnul.
Qed.

Lemma zero_fingerprint_reachable_witness :
  hash_string x86_64 (sda_body_1 ++ zero_suffix x86_64 (hash_string x86_64 sda_body_1))
  = 0.
Proof.
  apply (zero_fingerprint_reachable x86_64 sda_body_1).
  apply not_in_by_eqb. vm_compute. reflexivity.
Defined.

(** X23: the zero sentinel can hide a record: for every disk name that
    fits a line, there is a line of statistics that contains the name,
    in which the extractor finds it, and for which it nevertheless
    returns 0; a tick that reads this line neither pulses nor updates the
    baseline, as if the source were unreadable. *)
Theorem found_record_can_read_zero (cfg : config) (T : target) (E : env)
    (l : locals) (w : world) :
  ~ In NUL (target_disk cfg) ->
  ~ In newline (target_disk cfg) ->
  (length (target_disk cfg) <= 1000)%nat ->
  let line := target_disk cfg
              ++ zero_suffix T (hash_string T (target_disk cfg)) in
  contains (target_disk cfg) line
  /\ diskstats_scan cfg T (S (length line)) line = (true, 0)
  /\ (diskstats_at E (now w) = Some line ->
      fst (main_tick cfg T E l w) = l
      /\ device_trace (out (snd (main_tick cfg T E l w)))
         = device_trace (out w) ++ [Usleep MONITOR_INTERVAL]).
Proof.
  intros Hnul Hnl Hlen line.
  destruct (zero_suffix_bytes T (hash_string T (target_disk cfg)))
    as [Hslen Hbytes].
  assert (Hc : contains (target_disk cfg) line).
  { exists [], (zero_suffix T (hash_string T (target_disk cfg))). reflexivity. }
  assert (Hlnul : ~ In NUL line).
  { apply not_in_app; [exact Hnul|].
    apply printable_not_in; [reflexivity | exact Hbytes]. }
  assert (Hlnl : ~ In newline line).
  { apply not_in_app; [exact Hnl|].
    apply printable_not_in; [reflexivity | exact Hbytes]. }
  assert (Hllen : length line = (length (target_disk cfg) + 13)%nat)
    by (subst line; rewrite length_app, Hslen; reflexivity).
  assert (Hne : line <> []).
  { intros Hnil. rewrite Hnil in Hllen. simpl in Hllen. lia. }
  assert (Hscan : diskstats_scan cfg T (S (length line)) line = (true, 0)).
  { rewrite (diskstats_scan_step cfg T (length line) line line []).
    - assert (Hm : line_matches (target_disk cfg) line = true).
      { apply line_matches_contains.
        rewrite (cstr_nul_free _ Hnul), (cstr_nul_free _ Hlnul). exact Hc. }
      rewrite Hm. f_equal. subst line.
      apply hash_string_zero_suffix. exact Hnul.
    - apply fgets_last; [exact Hne | exact Hlnl |].
      rewrite Hllen. unfold MAX_LINE_LENGTH. lia. }
  split; [exact Hc|]. split; [exact Hscan|].
  intros Hfile.
  assert (Hzero : reading cfg T E (now w) = 0).
  { unfold reading. rewrite Hfile. fold line. rewrite Hscan. reflexivity. }
  destruct (main_tick_zero_reading cfg T E l w Hzero) as (Hl & _ & _ & Hd & _).
  split; [exact Hl | exact Hd].
Qed.

Lemma found_record_can_read_zero_witness :
  diskstats_scan sample_cfg x86_64
    (S (length (bytes "sda" ++ zero_suffix x86_64 (hash_string x86_64 (bytes "sda")))))
    (bytes "sda" ++ zero_suffix x86_64 (hash_string x86_64 (bytes "sda")))
  = (true, 0).
Proof.
  apply (found_record_can_read_zero sample_cfg x86_64 env_steady baseline_1
           initial_world).
  - apply not_in_by_eqb. reflexivity.
  - apply not_in_by_eqb. reflexivity.
  - simpl. lia.
Defined.

(** ** The two failures of a reading *)

(** X24: a reading fails in two ways that its caller cannot tell apart:
    when the statistics cannot be opened and when no record matches,
    [get_diskstats_hash] returns the same 0.  Only verbose mode shows the
    difference, by one diagnostic ([perror] for the first, the warning
    for the second); a reading that finds its record prints nothing. *)
Theorem reading_failures (cfg : config) (T : target) (E : env) (w : world) :
  signals_at E (now w) = [] ->
  let r := get_diskstats_hash cfg T E w in
  (diskstats_at E (now w) = None ->
   fst r = 0
   /\ out (snd r)
      = out w ++ (if debug_mode cfg then [Perror_diskstats] else []))
  /\ (forall stream,
         diskstats_at E (now w) = Some stream ->
         fst (diskstats_scan cfg T (S (length stream)) stream) = false ->
         fst r = 0
         /\ out (snd r)
            = out w ++ (if debug_mode cfg then [Warning_not_found] else []))
  /\ (forall stream,
         diskstats_at E (now w) = Some stream ->
         fst (diskstats_scan cfg T (S (length stream)) stream) = true ->
         out (snd r) = out w).
Proof.
  intros Hsig r. subst r.
  unfold get_diskstats_hash. rewrite io_step_eq, Hsig.
  assert (Hw : after_signals cfg [] w = w).
  { unfold after_signals. destruct w. cbn.
    destruct (debug_mode cfg); rewrite app_nil_r; reflexivity. }
  rewrite Hw. rewrite bind_eq. unfold fopen_diskstats. cbn [fst snd].
  split; [|split].
  - intros ->. rewrite bind_eq. unfold when.
    destruct (debug_mode cfg); cbn; rewrite ?app_nil_r; auto.
  - intros stream -> Hnot.
    pose proof (diskstats_scan_not_found cfg T _ stream Hnot) as Hzero.
    destruct (diskstats_scan cfg T (S (length stream)) stream) as [found hash].
    cbn [fst snd] in Hnot, Hzero. subst found hash.
    rewrite bind_eq. unfold when.
    destruct (debug_mode cfg); cbn; rewrite ?app_nil_r; auto.
  - intros stream -> Hfound.
    destruct (diskstats_scan cfg T (S (length stream)) stream) as [found hash].
    cbn [fst] in Hfound. subst found.
    rewrite bind_eq. reflexivity.
Qed.

Lemma reading_failures_witness :
  fst (get_diskstats_hash sample_cfg x86_64 env_outage initial_world) = 0
  /\ out (snd (get_diskstats_hash sample_cfg x86_64 env_outage initial_world))
     = [Perror_diskstats].
Proof.
  apply (proj1 (reading_failures sample_cfg x86_64 env_outage initial_world
                  eq_refl)).
  reflexivity.
Defined.

(** ** [main] and the signal *)

(** X25: once the startup has passed, a signal always ends [main] with
    status 0: whenever the three checks pass and a signal arrives at some
    instant, [main] returns 0 as soon as it is given enough rounds,
    whatever the statistics and the LED do meanwhile. *)
Theorem main_returns_zero_after_signal (T : target) (E : env)
    (SE : startup_env) (fuel : nat) (led0 : Z) (argv0 : list byte)
    (returns : list (Z * list byte)) (cfg : config) (t : nat) :
  parse_options returns initial_globals = inl (globals_of cfg) ->
  readable_at SE 0 (led_brightness_path 256 (target_led cfg)) = true ->
  disk_listed cfg E 1 <> 0 ->
  access_at SE 2 = true ->
  signals_at E t <> [] ->
  (t + 2 <= fuel)%nat ->
  fst (main T E SE fuel led0 argv0 returns) = Some 0.
Proof.
  intros Hparse Hled Hdisk Hacc Hsig Hfuel.
  destruct (main_startup_cases T E SE fuel led0 argv0 returns cfg Hparse)
    as (_ & _ & _ & Hrun).
  destruct (Hrun Hled Hdisk Hacc) as (Hs & _).
  rewrite Hs. clear Hs Hrun.
  destruct (startup_worlds E SE led0 cfg) as (_ & _ & H3).
  set (w3 := world_after_checks cfg E SE led0) in *.
  unfold main_monitor, main_from_loop. rewrite !bind_eq.
  pose proof (get_diskstats_hash_effect cfg T E w3) as H4.
  set (w4 := snd (get_diskstats_hash cfg T E w3)) in *.
  pose proof (run_effect_trans E 3 1 _ _ _ _ _ H3 H4) as (Hn & Hr & _).
  cbn [now world_at_start running Nat.add] in Hn, Hr.
  destruct (main_loop_terminates cfg T E t Hsig (t + 1) fuel
              {| last_hash := fst (get_diskstats_hash cfg T E w3);
                 activity_count := 0 |} w4) as [l' Hret].
  - destruct (Nat.le_gt_cases 4 t) as [Hlater|Hearlier].
    + right. rewrite Hn. lia.
    + left. rewrite Hr.
      rewrite (any_signal_at E 4 0 t); [reflexivity | lia | exact Hsig].
  - lia.
  - rewrite Hret, bind_eq. reflexivity.
Qed.

Lemma main_returns_zero_after_signal_witness :
  fst (main x86_64 env_interrupted startup_fine 5 0 (bytes "monitor")
         sample_returns) = Some 0.
Proof.
  apply (main_returns_zero_after_signal x86_64 env_interrupted startup_fine 5 0
           (bytes "monitor") sample_returns sample_cfg 3).
  - reflexivity.
  - reflexivity.
  - vm_compute. discriminate.
  - reflexivity.
  - simpl. discriminate.
  - lia.
Defined.

(** ** Steady statistics *)

Section Steady.

Variable cfg : config.
Variable T : target.
Variable E : env.
Hypothesis Hsteady : forall t t', diskstats_at E t = diskstats_at E t'.

Lemma steady_reading (t t' : nat) : reading cfg T E t = reading cfg T E t'.
Proof. unfold reading. rewrite (Hsteady t t'). reflexivity. Qed.

Lemma steady_tick (l : locals) (w : world) :
  last_hash l = reading cfg T E O ->
  fst (main_tick cfg T E l w) = l
  /\ run_effect E 2 w (snd (main_tick cfg T E l w)) [Usleep MONITOR_INTERVAL].
Proof.
  intros Hbase. apply main_tick_same_reading.
  rewrite Hbase. apply steady_reading.
Qed.

Lemma steady_loop (fuel : nat) :
  forall l w,
    last_hash l = reading cfg T E O ->
    exists k n,
      run_effect E k w (snd (main_loop cfg T E fuel l w))
                 (repeat (Usleep MONITOR_INTERVAL) n).
Proof.
  induction fuel as [|fuel IH]; intros l w Hbase.
  - exists 0%nat, 0%nat. apply run_effect_refl.
  - rewrite main_loop_round.
    pose proof (read_running_effect cfg E w) as H1.
    set (w1 := snd (io_step cfg E read_running w)) in *.
    destruct (fst (io_step cfg E read_running w) =? 0).
    + exists 1%nat, 0%nat. exact H1.
    + destruct (steady_tick l w1 Hbase) as [Hl H2].
      rewrite Hl.
      destruct (IH l (snd (main_tick cfg T E l w1)) Hbase) as (k & n & H3).
      exists (1 + (2 + k))%nat, (S n).
      exact (run_effect_trans E _ _ _ _ _ _ _ H1
               (run_effect_trans E _ _ _ _ _ _ _ H2 H3)).
Qed.

Lemma led_after_sleeps (n : nat) (v : Z) :
  led_after (repeat (Usleep MONITOR_INTERVAL) n) v = v.
Proof. induction n as [|n IH]; [reflexivity | exact IH]. Qed.

End Steady.

(** X26: steady statistics never blink: when the statistics file has the
    same content at every instant (or is unreadable at every instant),
    a whole run of the monitor, from its first reading to the end of the
    loop, makes no LED write at all: the device sees poll sleeps only and
    the LED keeps the brightness it had. *)
Theorem steady_statistics_never_pulse (cfg : config) (T : target) (E : env)
    (fuel : nat) (w : world) :
  (forall t t', diskstats_at E t = diskstats_at E t') ->
  (exists n,
      device_trace (out (snd (main_monitor cfg T E fuel w)))
      = device_trace (out w) ++ repeat (Usleep MONITOR_INTERVAL) n)
  /\ led (snd (main_monitor cfg T E fuel w)) = led w.
Proof.
  intros Hsteady. unfold main_monitor, main_from_loop. rewrite !bind_eq.
  pose proof (get_diskstats_hash_effect cfg T E w) as H0.
  set (w0 := snd (get_diskstats_hash cfg T E w)) in *.
  set (l0 := {| last_hash := fst (get_diskstats_hash cfg T E w);
                activity_count := 0 |}).
  assert (Hbase : last_hash l0 = reading cfg T E O).
  { subst l0. cbn [last_hash]. rewrite get_diskstats_hash_result.
    apply steady_reading. exact Hsteady. }
  destruct (steady_loop cfg T E Hsteady fuel l0 w0 Hbase) as (k & n & H1).
  set (w1 := snd (main_loop cfg T E fuel l0 w0)) in *.
  assert (H2 : run_effect E 0 w1
                 (snd (match fst (main_loop cfg T E fuel l0 w0) with
                       | Some l' =>
                           when (debug_mode cfg)
                                (emit (Printf_shutdown (activity_count l')));;
                           ret (Some 0)
                       | None => ret None
                       end w1)) []).
  { destruct (fst (main_loop cfg T E fuel l0 w0)) as [l'|].
    - rewrite bind_eq. cbn [ret snd].
      apply diagnostic_effect. reflexivity.
    - apply run_effect_refl. }
  pose proof (run_effect_trans E _ _ _ _ _ _ _ H0
                (run_effect_trans E _ _ _ _ _ _ _ H1 H2))
    as (_ & _ & Hd & Hl).
  rewrite app_nil_r in Hd, Hl. cbn [app] in Hd, Hl.
  split.
  - exists n. exact Hd.
  - rewrite Hl. apply led_after_sleeps.
Qed.

Lemma steady_statistics_never_pulse_witness :
  led (snd (main_monitor sample_cfg x86_64 env_steady 4 initial_world)) = 0.
Proof.
  apply (steady_statistics_never_pulse sample_cfg x86_64 env_steady 4
           initial_world).
  intros t t'. reflexivity.
Defined.
